(** * SimpleATSAnalyzer (src/lib/analyzer.ts): a shallow embedding

    The analyzer is a pure function from two strings (résumé text and
    vacancy text) to an [ATSAnalysisResult].  This file embeds it together
    with the fragment of the JavaScript runtime it calls: strings as
    sequences of UTF-16 code units, [trim], [includes], [split], [join],
    backtracking regular expressions, and binary64 arithmetic for the
    places where the source divides or multiplies by a decimal weight.

    The only runtime function left abstract is [String.prototype.toLowerCase]
    (the Unicode case tables): the analyzer is defined in a section over an
    arbitrary [toLowerCase], so every universally quantified theorem holds
    whatever the case mapping is.  Closed evaluations use [toLowerCaseRu],
    the case mapping on Basic Latin and Cyrillic, on inputs written in those
    two blocks. *)

From Stdlib Require Import String Ascii DecimalString.
From Stdlib Require Import ZArith NArith QArith Qround List Bool Lia SpecFloat.
From Stdlib Require Import Permutation Sorted.
Import ListNotations.
Close Scope Q_scope.

(** ** The JavaScript runtime fragment *)

Module JS.

(** A JavaScript string is a sequence of UTF-16 code units. *)
Definition char16 := N.
Definition jsstring := list char16.

(** String literals of this file are UTF-8 byte sequences; [utf16] decodes
    them into code units (surrogate pairs above the BMP). *)
Fixpoint utf16_of_bytes (bs : list N) : jsstring :=
  match bs with
  | [] => []
  | b0 :: r0 =>
      if (b0 <? 128)%N then b0 :: utf16_of_bytes r0
      else if (b0 <? 224)%N then
        match r0 with
        | b1 :: r1 => ((b0 - 192) * 64 + (b1 - 128))%N :: utf16_of_bytes r1
        | [] => []
        end
      else if (b0 <? 240)%N then
        match r0 with
        | b1 :: b2 :: r2 =>
            ((b0 - 224) * 4096 + (b1 - 128) * 64 + (b2 - 128))%N
              :: utf16_of_bytes r2
        | _ => []
        end
      else
        match r0 with
        | b1 :: b2 :: b3 :: r3 =>
            let cp := ((b0 - 240) * 262144 + (b1 - 128) * 4096
                       + (b2 - 128) * 64 + (b3 - 128) - 65536)%N in
            (55296 + cp / 1024)%N :: (56320 + cp mod 1024)%N
              :: utf16_of_bytes r3
        | _ => []
        end
  end.

Definition utf16 (s : string) : jsstring :=
  utf16_of_bytes (map N_of_ascii (list_ascii_of_string s)).

(** The single code unit of a one-character literal. *)
Definition cu (s : string) : char16 := hd 0%N (utf16 s).

Fixpoint str_eqb (a b : jsstring) : bool :=
  match a, b with
  | [], [] => true
  | x :: a', y :: b' => (x =? y)%N && str_eqb a' b'
  | _, _ => false
  end.

(** JS truthiness of a string and of an optional string ([undefined] and
    the empty string are falsy). *)
Definition truthy (s : jsstring) : bool :=
  match s with [] => false | _ :: _ => true end.

Definition truthy_opt (o : option jsstring) : bool :=
  match o with Some s => truthy s | None => false end.

(** WhiteSpace and LineTerminator code units: the set matched by [\s] and
    stripped by [trim]. *)
Definition isWhiteSpace (c : char16) : bool :=
  ((9 <=? c) && (c <=? 13) || (c =? 32) || (c =? 160) || (c =? 5760)
   || (8192 <=? c) && (c <=? 8202) || (c =? 8232) || (c =? 8233)
   || (c =? 8239) || (c =? 8287) || (c =? 12288) || (c =? 65279))%N.

Fixpoint trimStart (s : jsstring) : jsstring :=
  match s with
  | [] => []
  | c :: r => if isWhiteSpace c then trimStart r else s
  end.

Definition trimEnd (s : jsstring) : jsstring := rev (trimStart (rev s)).

Definition trim (s : jsstring) : jsstring := trimEnd (trimStart s).

Fixpoint startsWith (s p : jsstring) : bool :=
  match p, s with
  | [], _ => true
  | x :: p', y :: s' => (x =? y)%N && startsWith s' p'
  | _ :: _, [] => false
  end.

(** [s.includes(p)]: [p] occurs in [s] as a contiguous run of code units. *)
Fixpoint includes (s p : jsstring) : bool :=
  startsWith s p
  || match s with [] => false | _ :: s' => includes s' p end.

(** [arr.includes(x)] on an array of strings. *)
Definition arr_includes (l : list jsstring) (x : jsstring) : bool :=
  existsb (str_eqb x) l.

(** [s.split(sep)] for a separator of one code unit (the source only
    splits on a newline and on a colon). *)
Fixpoint split_from (sep : char16) (s cur : jsstring) : list jsstring :=
  match s with
  | [] => [rev cur]
  | c :: r =>
      if (c =? sep)%N then rev cur :: split_from sep r []
      else split_from sep r (c :: cur)
  end.

Definition split (sep : char16) (s : jsstring) : list jsstring :=
  split_from sep s [].

(** [s.split(sep, limit)]: the array of [split] cut to [limit] entries. *)
Definition split_limit (sep : char16) (limit : nat) (s : jsstring)
  : list jsstring :=
  firstn limit (split sep s).

Fixpoint join (sep : jsstring) (l : list jsstring) : jsstring :=
  match l with
  | [] => []
  | [x] => x
  | x :: r => x ++ sep ++ join sep r
  end.

(** [Array.from(new Set(l))]: first occurrences, in order. *)
Fixpoint dedupe_acc {A} (eqb : A -> A -> bool) (seen l : list A) : list A :=
  match l with
  | [] => []
  | x :: r =>
      if existsb (eqb x) seen then dedupe_acc eqb seen r
      else x :: dedupe_acc eqb (x :: seen) r
  end.

Definition dedupe {A} (eqb : A -> A -> bool) (l : list A) : list A :=
  dedupe_acc eqb [] l.

(** Decimal rendering of a non-negative integer in a template literal. *)
Definition Number_toString (n : nat) : jsstring :=
  utf16 (NilZero.string_of_uint (Nat.to_uint n)).

(** *** Regular expressions

    A backtracking matcher in continuation-passing style, after the
    RegExp semantics of ECMA-262 restricted to the constructs the source
    uses: classes, sequence, alternation, greedy bounded and unbounded
    repetition, one level of capture groups, [^], [$] and [\b] (no flags
    other than [g]). *)

Definition cset := list (char16 * char16).

Definition cset_mem (cls : cset) (c : char16) : bool :=
  existsb (fun r => (fst r <=? c) && (c <=? snd r))%N cls.

Inductive regex :=
| Empty
| Char (cls : cset)
| Cat (r1 r2 : regex)
| Or (r1 r2 : regex)
| Repeat (min : nat) (max : option nat) (r : regex)
| Group (i : nat) (r : regex)
| Bol
| Eol
| WordBoundary.

(** Matcher state: the input already passed (most recent code unit first),
    the input still ahead, and the captures made so far. *)
Record rstate := mkState {
  before : jsstring;
  after : jsstring;
  caps : list (nat * jsstring)
}.

Definition cont := rstate -> option rstate.
Definition matcher := cont -> rstate -> option rstate.

Definition isWordChar (c : char16) : bool :=
  ((48 <=? c) && (c <=? 57) || (65 <=? c) && (c <=? 90)
   || (97 <=? c) && (c <=? 122) || (c =? 95))%N.

(** RepeatMatcher.  Once the minimum is reached an iteration that consumes
    nothing is rejected.  Every unfolding either lowers [mn] or shortens the
    input ahead, so [S (mn + length (after s))] units of fuel are never
    used up. *)
Fixpoint rep_loop (atom : matcher) (fuel mn : nat) (mx : option nat)
    (k : cont) (s : rstate) {struct fuel} : option rstate :=
  match fuel with
  | O => None
  | S fuel' =>
      match mx with
      | Some O => k s
      | _ =>
          let mx' := option_map Nat.pred mx in
          match mn with
          | S mn' => atom (fun s' => rep_loop atom fuel' mn' mx' k s') s
          | O =>
              match
                atom (fun s' =>
                        if Nat.ltb (length (after s')) (length (after s))
                        then rep_loop atom fuel' 0 mx' k s'
                        else None) s
              with
              | Some e => Some e
              | None => k s
              end
          end
      end
  end.

Fixpoint run (r : regex) : matcher :=
  match r with
  | Empty => fun k s => k s
  | Char cls => fun k s =>
      match after s with
      | c :: rest =>
          if cset_mem cls c then k (mkState (c :: before s) rest (caps s))
          else None
      | [] => None
      end
  | Cat a b => fun k s => run a (fun s' => run b k s') s
  | Or a b => fun k s =>
      match run a k s with
      | Some e => Some e
      | None => run b k s
      end
  | Repeat mn mx a => fun k s =>
      rep_loop (run a) (S (mn + length (after s))) mn mx k s
  | Group i a => fun k s =>
      run a (fun s' =>
               k (mkState (before s') (after s')
                    ((i, firstn (length (after s) - length (after s'))
                           (after s)) :: caps s'))) s
  | Bol => fun k s => match before s with [] => k s | _ :: _ => None end
  | Eol => fun k s => match after s with [] => k s | _ :: _ => None end
  | WordBoundary => fun k s =>
      let a := match before s with c :: _ => isWordChar c | [] => false end in
      let b := match after s with c :: _ => isWordChar c | [] => false end in
      if xorb a b then k s else None
  end.

(** Attempt a match at the current position. *)
Definition match_here (r : regex) (bef aft : jsstring) : option rstate :=
  run r Some (mkState bef aft []).

Record match_result := mkMatch {
  matched : jsstring;
  groups : list (nat * jsstring)
}.

(** [s.match(r)] without the [g] flag: the leftmost match. *)
Fixpoint exec_from (r : regex) (bef aft : jsstring) : option match_result :=
  match match_here r bef aft with
  | Some e =>
      Some (mkMatch (firstn (length aft - length (after e)) aft) (caps e))
  | None =>
      match aft with
      | [] => None
      | c :: t => exec_from r (c :: bef) t
      end
  end.

Definition String_match (r : regex) (s : jsstring) : option match_result :=
  exec_from r [] s.

Fixpoint group (i : nat) (g : list (nat * jsstring)) : option jsstring :=
  match g with
  | [] => None
  | (j, v) :: g' => if Nat.eqb i j then Some v else group i g'
  end.

(** The global scan shared by [match(/r/g)] and [replace(/r/g, ...)]: every
    position that is not inside the previous match is tried in turn; after
    an empty match the scan moves on by one code unit. *)
Inductive segment :=
| Lit (c : char16)
| Hit (m : jsstring).

Fixpoint scan (r : regex) (bef aft : jsstring) (skip : nat) : list segment :=
  match skip with
  | S n =>
      match aft with
      | [] => []
      | c :: t => scan r (c :: bef) t n
      end
  | O =>
      match match_here r bef aft with
      | Some e =>
          let len := length aft - length (after e) in
          Hit (firstn len aft)
            :: match aft with
               | [] => []
               | c :: t =>
                   match len with
                   | O => Lit c :: scan r (c :: bef) t 0
                   | S n => scan r (c :: bef) t n
                   end
               end
      | None =>
          match aft with
          | [] => []
          | c :: t => Lit c :: scan r (c :: bef) t 0
          end
      end
  end.

(** [s.match(/r/g) || []]. *)
Definition String_match_all (r : regex) (s : jsstring) : list jsstring :=
  flat_map (fun g => match g with Hit m => [m] | Lit _ => [] end)
    (scan r [] s 0).

(** [s.replace(/r/g, repl)] for a replacement without [$] patterns. *)
Definition String_replace_all (r : regex) (repl s : jsstring) : jsstring :=
  flat_map (fun g => match g with Hit _ => repl | Lit c => [c] end)
    (scan r [] s 0).

(** *** Numbers

    Integer-valued quantities (lengths, the additive scores) stay in [Z];
    they are far below 2^53, where binary64 arithmetic on integers is
    exact.  Division and multiplication by decimal weights are carried out
    in binary64, round-to-nearest-even. *)

Definition number := spec_float.

Definition Z2F (z : Z) : number := binary_normalize 53 1024 z 0 false.
Definition fadd : number -> number -> number := SFadd 53 1024.
Definition fmul : number -> number -> number := SFmul 53 1024.
Definition fdiv : number -> number -> number := SFdiv 53 1024.

(** [Math.round]: the nearest integer, halves towards +infinity.  The
    analyzer only rounds finite values. *)
Definition Math_round (x : number) : Z :=
  match x with
  | S754_finite s m e =>
      let n := if s then Z.neg m else Z.pos m in
      if (0 <=? e)%Z then (n * 2 ^ e)%Z
      else ((2 * n + 2 ^ (- e)) / 2 ^ (1 - e))%Z
  | _ => 0%Z
  end.

Definition is_finite (x : number) : bool :=
  match x with
  | S754_finite _ _ _ | S754_zero _ => true
  | _ => false
  end.

End JS.

Import JS.
Open Scope string_scope.
Open Scope list_scope.

(** ** Data model (the exported interfaces of analyzer.ts) *)

(** The keys of [standardSections]; [ParsedResume.sections] holds a subset
    of them. *)
Inductive sectionType := experience | education | skills | contacts | about.

Definition sectionType_eqb (a b : sectionType) : bool :=
  match a, b with
  | experience, experience | education, education | skills, skills
  | contacts, contacts | about, about => true
  | _, _ => false
  end.

Definition sections_includes (l : list sectionType) (s : sectionType) : bool :=
  existsb (sectionType_eqb s) l.

(** The fields [skills], [experience] and [education] of the source are
    [skillsFound], [experienceText] and [educationText] here, apart from the
    section keys of the same names. *)
Record ParsedResume := mkParsedResume {
  name : option jsstring;
  email : option jsstring;
  phone : option jsstring;
  position : option jsstring;
  skillsFound : list jsstring;
  experienceText : jsstring;
  educationText : jsstring;
  sections : list sectionType;
  rawText : jsstring
}.

Inductive recType := critical | warning | improvement.

Record Recommendation := mkRecommendation {
  rtype : recType;
  title : jsstring;
  description : jsstring;
  example : option jsstring
}.

(** The return type of [extractVacancyRequirements]; its field
    [softSkills] is [softSkillsReq] here, apart from the vocabulary table. *)
Record VacancyRequirements := mkRequirements {
  technicalSkills : list jsstring;
  softSkillsReq : list jsstring;
  keywords : list jsstring
}.

Record Breakdown := mkBreakdown {
  b_keywords : Z;
  b_structure : Z;
  b_contacts : Z;
  b_experience : Z
}.

Record ATSAnalysisResult := mkResult {
  score : Z;
  breakdown : Breakdown;
  recommendations : list Recommendation;
  parsedResume : ParsedResume;
  matchedKeywords : list jsstring;
  missingKeywords : list jsstring
}.

(** ** The vocabulary tables of [SimpleATSAnalyzer] *)

Definition standardSections (t : sectionType) : list jsstring :=
  match t with
  | experience =>
      map utf16 ["опыт работы"; "опыт"; "карьера"; "работа";
                 "трудовая деятельность"; "профессиональный опыт"]
  | education =>
      map utf16 ["образование"; "учеба"; "обучение"; "квалификация"]
  | skills =>
      map utf16 ["навыки"; "ключевые навыки"; "технологии"; "компетенции";
                 "умения"; "профессиональные навыки"]
  | contacts =>
      map utf16 ["контакты"; "контактная информация"; "связь";
                 "контактные данные"]
  | about =>
      map utf16 ["о себе"; "обо мне"; "личная информация";
                 "краткая информация"; "резюме"]
  end.

(** [Object.keys(standardSections)], in declaration order. *)
Definition sectionTypes : list sectionType :=
  [experience; education; skills; contacts; about].

Definition itSkills : list jsstring :=
  map utf16
    ["python"; "java"; "javascript"; "react"; "angular"; "vue"; "node.js";
     "express"; "django"; "flask"; "spring"; "hibernate"; "sql";
     "postgresql"; "mysql"; "mongodb"; "redis"; "docker"; "kubernetes";
     "aws"; "azure"; "git"; "jenkins"; "ci/cd"; "html"; "css"; "typescript";
     "php"; "laravel"; "symfony"; "c++"; "c#"; ".net"; "go"; "rust"; "scala";
     "kotlin"; "swift"; "flutter"; "react native"; "android"; "ios"; "linux";
     "windows"; "macos"; "nginx"; "apache"; "elasticsearch"; "kafka"].

Definition softSkills : list jsstring :=
  map utf16
    ["коммуникация"; "командная работа"; "лидерство";
     "управление проектами"; "аналитическое мышление"; "решение проблем";
     "креативность"; "инициативность"; "адаптивность"; "обучаемость";
     "стрессоустойчивость"; "внимательность к деталям"].

(** ** The regular expressions of the source *)

Definition ws_class : cset :=
  [(9, 13); (32, 32); (160, 160); (5760, 5760); (8192, 8202); (8232, 8233);
   (8239, 8239); (8287, 8287); (12288, 12288); (65279, 65279)]%N.

Definition digit : cset := [(48, 57)]%N.

Definition one (c : string) : cset := [(cu c, cu c)].
Definition range (a b : string) : cset := [(cu a, cu b)].

Definition plus (r : regex) : regex := Repeat 1 None r.
Definition star (r : regex) : regex := Repeat 0 None r.
Definition times (n : nat) (r : regex) : regex := Repeat n (Some n) r.

(** [/\s+/g] *)
Definition re_whitespace : regex := plus (Char ws_class).

Definition upper_ru : cset := range "А" "Я" ++ one "Ё".
Definition lower_ru : cset := range "а" "я" ++ one "ё".

(** [/^([А-ЯЁ][а-яё]+(?:\s+[А-ЯЁ][а-яё]+){1,2})(?:\s|$)/] *)
Definition re_name : regex :=
  let word := Cat (Char upper_ru) (plus (Char lower_ru)) in
  Cat Bol
    (Cat (Group 1
            (Cat word
               (Repeat 1 (Some 2) (Cat (plus (Char ws_class)) word))))
         (Or (Char ws_class) Eol)).

(** [/\b[A-Za-z0-9._%+-]+@[A-Za-z0-9.-]+\.[A-Z|a-z]{2,}\b/] *)
Definition re_email : regex :=
  let alnum := range "A" "Z" ++ range "a" "z" ++ range "0" "9" in
  Cat WordBoundary
    (Cat (plus (Char (alnum ++ one "." ++ one "_" ++ one "%" ++ one "+"
                        ++ one "-")))
       (Cat (Char (one "@"))
          (Cat (plus (Char (alnum ++ one "." ++ one "-")))
             (Cat (Char (one "."))
                (Cat (Repeat 2 None
                        (Char (range "A" "Z" ++ one "|" ++ range "a" "z")))
                   WordBoundary))))).

(** The three telephone patterns of [extractPhone]:
    [/\+7[\s\-\(\)]*\d{3}[\s\-\(\)]*\d{3}[\s\-]*\d{2}[\s\-]*\d{2}/],
    the same after [8], and the bare
    [/\d{3}[\s\-\(\)]*\d{3}[\s\-]*\d{2}[\s\-]*\d{2}/]. *)
Definition sep_paren : regex :=
  star (Char (ws_class ++ one "-" ++ one "(" ++ one ")")).
Definition sep_plain : regex := star (Char (ws_class ++ one "-")).

Definition phone_tail : regex :=
  Cat (times 3 (Char digit))
    (Cat sep_paren
       (Cat (times 3 (Char digit))
          (Cat sep_plain
             (Cat (times 2 (Char digit))
                (Cat sep_plain (times 2 (Char digit))))))).

Definition phonePatterns : list regex :=
  [ Cat (Char (one "+")) (Cat (Char (one "7")) (Cat sep_paren phone_tail));
    Cat (Char (one "8")) (Cat sep_paren phone_tail);
    phone_tail ].

(** [/[а-яё]{3,}/g] *)
Definition re_word : regex := Repeat 3 None (Char lower_ru).

(** The weights [0.40], [0.30] and [0.15]: the binary64 numbers nearest to
    the decimal literals. *)
Definition weight_keywords : number := S754_finite false 7205759403792794 (-54).
Definition weight_structure : number := S754_finite false 5404319552844595 (-54).
Definition weight_contacts : number := S754_finite false 5404319552844595 (-55).
Definition weight_experience : number := S754_finite false 5404319552844595 (-55).

(** ** The analyzer *)

Section Analyzer.

(** [String.prototype.toLowerCase] of the host. *)
Variable toLowerCase : jsstring -> jsstring.

Definition newline : char16 := 10%N.
Definition colon : char16 := cu ":".

Definition normalizeText (text : jsstring) : jsstring :=
  trim (String_replace_all re_whitespace (utf16 " ") text).

(** The [for (const line of lines)] loop of [extractName]. *)
Fixpoint extractName_lines (lines : list jsstring) : option jsstring :=
  match lines with
  | [] => None
  | line :: rest =>
      let trimmed := trim line in
      match String_match re_name trimmed with
      | Some nameMatch => group 1 (groups nameMatch)
      | None => extractName_lines rest
      end
  end.

Definition extractName (text : jsstring) : option jsstring :=
  extractName_lines (firstn 5 (split newline text)).

Definition extractEmail (text : jsstring) : option jsstring :=
  option_map matched (String_match re_email text).

Fixpoint extractPhone_patterns (ps : list regex) (text : jsstring)
  : option jsstring :=
  match ps with
  | [] => None
  | pattern :: rest =>
      match String_match pattern text with
      | Some m => Some (matched m)
      | None => extractPhone_patterns rest text
      end
  end.

Definition extractPhone (text : jsstring) : option jsstring :=
  extractPhone_patterns phonePatterns text.

Definition positionKeywords : list jsstring :=
  map utf16 ["должность"; "позиция"; "специальность"; "профессия"; "цель"].

(** The inner loop of [extractPosition] over the keywords, for one line. *)
Fixpoint extractPosition_keywords (line lowerLine : jsstring)
    (kws : list jsstring) : option jsstring :=
  match kws with
  | [] => None
  | keyword :: rest =>
      if includes lowerLine keyword then
        let parts := split_limit colon 1 line in
        if Nat.ltb 1 (length parts) then
          match nth_error parts 1 with
          | Some p => Some (trim p)
          | None => extractPosition_keywords line lowerLine rest
          end
        else extractPosition_keywords line lowerLine rest
      else extractPosition_keywords line lowerLine rest
  end.

Fixpoint extractPosition_lines (lines : list jsstring) : option jsstring :=
  match lines with
  | [] => None
  | line :: rest =>
      let lowerLine := trim (toLowerCase line) in
      match extractPosition_keywords line lowerLine positionKeywords with
      | Some p => Some p
      | None => extractPosition_lines rest
      end
  end.

Definition extractPosition (text : jsstring) : option jsstring :=
  extractPosition_lines (firstn 10 (split newline text)).

Definition extractSkills (text : jsstring) : list jsstring :=
  let textLower := toLowerCase text in
  let found (vocabulary : list jsstring) :=
    filter (fun skill => includes textLower (toLowerCase skill)) vocabulary in
  dedupe str_eqb (found itSkills ++ found softSkills).

Definition detectSections (text : jsstring) : list sectionType :=
  let textLower := toLowerCase text in
  dedupe sectionType_eqb
    (filter (fun t => existsb (includes textLower) (standardSections t))
       sectionTypes).

(** [Object.values(standardSections).flat()] without the keywords of [t]. *)
Definition otherKeywords (t : sectionType) : list jsstring :=
  filter (fun keyword => negb (arr_includes (standardSections t) keyword))
    (flat_map standardSections sectionTypes).

(** The line loop shared (textually) by [extractExperienceSection] and
    [extractEducationSection]: [inSection] is the flag, [collected] the
    lines pushed so far. *)
Fixpoint sectionLoop (t : sectionType) (lines : list jsstring)
    (inSection : bool) (collected : list jsstring) : list jsstring :=
  match lines with
  | [] => collected
  | line :: rest =>
      let lowerLine := trim (toLowerCase line) in
      if existsb (includes lowerLine) (standardSections t) then
        sectionLoop t rest true collected                       (* continue *)
      else if inSection && existsb (includes lowerLine) (otherKeywords t) then
        collected                                                  (* break *)
      else if inSection && truthy (trim line) then
        sectionLoop t rest inSection (collected ++ [line])
      else sectionLoop t rest inSection collected
  end.

Definition extractExperienceSection (text : jsstring) : jsstring :=
  join [newline] (sectionLoop experience (split newline text) false []).

Definition extractEducationSection (text : jsstring) : jsstring :=
  join [newline] (sectionLoop education (split newline text) false []).

Definition parseResume (text : jsstring) : ParsedResume :=
  let normalizedText := normalizeText text in
  {| name := extractName normalizedText;
     email := extractEmail normalizedText;
     phone := extractPhone normalizedText;
     position := extractPosition normalizedText;
     skillsFound := extractSkills normalizedText;
     experienceText := extractExperienceSection normalizedText;
     educationText := extractEducationSection normalizedText;
     sections := detectSections normalizedText;
     rawText := normalizedText |}.

(** The frequency table [wordFreq]: an object whose keys are kept in
    insertion order.  The keys are runs of Cyrillic letters, so none is an
    integer index or an inherited property name. *)
Fixpoint bump (acc : list (jsstring * nat)) (word : jsstring)
  : list (jsstring * nat) :=
  match acc with
  | [] => [(word, 1)]
  | (w, n) :: rest =>
      if str_eqb w word then (w, S n) :: rest else (w, n) :: bump rest word
  end.

(** [Array.prototype.sort] with the comparator [b - a] on frequencies: a
    stable sort, larger frequencies first. *)
Fixpoint insert_desc (x : jsstring * nat) (l : list (jsstring * nat))
  : list (jsstring * nat) :=
  match l with
  | [] => [x]
  | y :: l' =>
      if Nat.leb (snd y) (snd x) then x :: y :: l' else y :: insert_desc x l'
  end.

Definition sort_desc (l : list (jsstring * nat)) : list (jsstring * nat) :=
  fold_right insert_desc [] l.

Definition candidateWords (vacancyText : jsstring) : list jsstring :=
  String_match_all re_word (toLowerCase vacancyText).

Definition extractVacancyRequirements (vacancyText : jsstring)
  : VacancyRequirements :=
  let textLower := toLowerCase vacancyText in
  let techRequirements :=
    filter (fun skill => includes textLower (toLowerCase skill)) itSkills in
  let softRequirements :=
    filter (fun skill => includes textLower (toLowerCase skill)) softSkills in
  let words := String_match_all re_word textLower in
  let wordFreq := fold_left bump words [] in
  let keywords :=
    map fst
      (firstn 20 (sort_desc (filter (fun e => Nat.ltb 1 (snd e)) wordFreq))) in
  {| technicalSkills := techRequirements;
     softSkillsReq := softRequirements;
     keywords := keywords |}.

Definition allRequirements (requirements : VacancyRequirements)
  : list jsstring :=
  technicalSkills requirements ++ softSkillsReq requirements
    ++ keywords requirements.

(** The partition loop of [analyzeKeywords]: the state is the pair of
    arrays [(matched, missing)]. *)
Definition partitionStep (resumeTextLower : jsstring)
    (st : list jsstring * list jsstring) (requirement : jsstring)
  : list jsstring * list jsstring :=
  if includes resumeTextLower (toLowerCase requirement)
  then (fst st ++ [requirement], snd st)
  else (fst st, snd st ++ [requirement]).

Definition partitionRequirements (resume : ParsedResume)
    (requirements : VacancyRequirements) : list jsstring * list jsstring :=
  fold_left (partitionStep (toLowerCase (rawText resume)))
    (allRequirements requirements) ([], []).

(** [(matched.length / allRequirements.length) * 100]. *)
Definition keywordRatio (nMatched nTotal : nat) : number :=
  fmul (fdiv (Z2F (Z.of_nat nMatched)) (Z2F (Z.of_nat nTotal))) (Z2F 100).

(** [Math.min(Math.round(...), 100)]. *)
Definition keywordScore (nMatched nTotal : nat) : Z :=
  Z.min (Math_round (keywordRatio nMatched nTotal)) 100.

Definition analyzeKeywords (resume : ParsedResume)
    (requirements : VacancyRequirements)
  : Z * list jsstring * list jsstring :=
  let all := allRequirements requirements in
  let '(matched, missing) := partitionRequirements resume requirements in
  match all with
  | [] => (100%Z, [], [])
  | _ :: _ =>
      (keywordScore (length matched) (length all), matched, firstn 10 missing)
  end.

Definition expectedSections : list sectionType :=
  [experience; education; skills].

Definition analyzeStructure (resume : ParsedResume) : Z :=
  let score := Z2F 0 in
  let foundSections :=
    length (filter (sections_includes (sections resume)) expectedSections) in
  let score :=
    fadd score
      (fmul (fdiv (Z2F (Z.of_nat foundSections))
               (Z2F (Z.of_nat (length expectedSections))))
         (Z2F 70)) in
  let score :=
    if sections_includes (sections resume) contacts
    then fadd score (Z2F 15) else score in
  let score :=
    if Nat.ltb 5 (length (split newline (rawText resume)))
    then fadd score (Z2F 15) else score in
  Z.min (Math_round score) 100.

Definition analyzeContacts (resume : ParsedResume) : Z :=
  let score := 0%Z in
  let score := if truthy_opt (email resume) then (score + 40)%Z else score in
  let score := if truthy_opt (phone resume) then (score + 40)%Z else score in
  let score := if truthy_opt (name resume) then (score + 20)%Z else score in
  Z.min score 100.

Definition analyzeExperience (resume : ParsedResume)
    (requirements : VacancyRequirements) : Z :=
  if negb (truthy (experienceText resume)) then 0%Z
  else
    let score := 40%Z in
    let len := length (experienceText resume) in
    let score :=
      if Nat.ltb 200 len then (score + 30)%Z
      else if Nat.ltb 100 len then (score + 20)%Z
      else if Nat.ltb 50 len then (score + 10)%Z
      else score in
    let experienceLower := toLowerCase (experienceText resume) in
    let relevantSkills :=
      filter (fun skill => includes experienceLower (toLowerCase skill))
        (technicalSkills requirements) in
    let score :=
      if Nat.ltb 0 (length relevantSkills)
      then (score + Z.min (Z.of_nat (length relevantSkills) * 5) 30)%Z
      else score in
    Z.min score 100.

(** The recommendation texts. *)
Definition quote : jsstring := [34%N].

(** The description of the keyword recommendation, as a function of the
    number it interpolates. *)
Definition keywordsDescription (count : nat) : jsstring :=
  utf16 "Ваше резюме не содержит "
    ++ Number_toString count
    ++ utf16 " важных ключевых слов. ATS системы ищут точные совпадения.".

Definition rec_keywords (missingKeywords : list jsstring) : Recommendation :=
  {| rtype := critical;
     title := utf16 "Добавьте ключевые слова из вакансии";
     description := keywordsDescription (length missingKeywords);
     example :=
       Some (utf16 "Добавьте: "
               ++ join (utf16 ", ") (firstn 5 missingKeywords)) |}.

Definition rec_sections (missingSections : list jsstring) : Recommendation :=
  {| rtype := warning;
     title := utf16 "Добавьте стандартные разделы";
     description :=
       utf16 "ATS системы ожидают стандартную структуру резюме. Отсутствуют разделы: "
         ++ join (utf16 ", ") missingSections;
     example :=
       Some (utf16 "Используйте заголовки: "
               ++ quote ++ utf16 "Опыт работы" ++ quote ++ utf16 ", "
               ++ quote ++ utf16 "Образование" ++ quote ++ utf16 ", "
               ++ quote ++ utf16 "Ключевые навыки" ++ quote) |}.

Definition rec_contacts (missingContacts : list jsstring) : Recommendation :=
  {| rtype := critical;
     title := utf16 "Добавьте контактную информацию";
     description :=
       utf16 "Отсутствуют важные контактные данные: "
         ++ join (utf16 ", ") missingContacts;
     example := Some (utf16 "Укажите ФИО, телефон и email в начале резюме") |}.

Definition rec_no_experience : Recommendation :=
  {| rtype := warning;
     title := utf16 "Детально опишите опыт работы";
     description :=
       utf16 "Раздел опыта работы отсутствует или слишком краткий";
     example :=
       Some (utf16 "Укажите компании, должности, период работы и основные обязанности") |}.

Definition rec_short_experience : Recommendation :=
  {| rtype := improvement;
     title := utf16 "Расширьте описание опыта";
     description :=
       utf16 "Описание опыта работы слишком краткое для эффективного анализа ATS";
     example :=
       Some (utf16 "Добавьте конкретные достижения, проекты и используемые технологии") |}.

Definition rec_well_done : Recommendation :=
  {| rtype := improvement;
     title := utf16 "Отличная работа!";
     description :=
       utf16 "Ваше резюме хорошо оптимизировано для ATS систем";
     example :=
       Some (utf16 "Продолжайте обновлять резюме актуальными навыками и достижениями") |}.

(** [generateRecommendations]: each block below is one [if] of the source
    and yields the array after its pushes. *)
Definition rule_keywords (bd : Breakdown) (missingKeywords : list jsstring)
    (recs : list Recommendation) : list Recommendation :=
  if (b_keywords bd <? 70)%Z then
    if Nat.ltb 0 (length missingKeywords)
    then recs ++ [rec_keywords missingKeywords] else recs
  else recs.

Definition rule_structure (bd : Breakdown) (resume : ParsedResume)
    (recs : list Recommendation) : list Recommendation :=
  if (b_structure bd <? 70)%Z then
    let absent (t : sectionType) (label : string) :=
      if negb (sections_includes (sections resume) t)
      then [utf16 label] else [] in
    let missingSections :=
      absent experience "опыт работы" ++ absent education "образование"
        ++ absent skills "навыки" in
    if Nat.ltb 0 (length missingSections)
    then recs ++ [rec_sections missingSections] else recs
  else recs.

Definition rule_contacts (bd : Breakdown) (resume : ParsedResume)
    (recs : list Recommendation) : list Recommendation :=
  if (b_contacts bd <? 80)%Z then
    let absent (field : option jsstring) (label : string) :=
      if negb (truthy_opt field) then [utf16 label] else [] in
    let missingContacts :=
      absent (email resume) "email" ++ absent (phone resume) "телефон"
        ++ absent (name resume) "ФИО" in
    if Nat.ltb 0 (length missingContacts)
    then recs ++ [rec_contacts missingContacts] else recs
  else recs.

Definition rule_experience (bd : Breakdown) (resume : ParsedResume)
    (recs : list Recommendation) : list Recommendation :=
  if (b_experience bd <? 60)%Z then
    if negb (truthy (experienceText resume)) then recs ++ [rec_no_experience]
    else if Nat.ltb (length (experienceText resume)) 100
    then recs ++ [rec_short_experience]
    else recs
  else recs.

Definition rule_general (recs : list Recommendation) : list Recommendation :=
  if Nat.eqb (length recs) 0 then recs ++ [rec_well_done] else recs.

Definition generateRecommendations (bd : Breakdown) (resume : ParsedResume)
    (requirements : VacancyRequirements)
    (matchedKeywords missingKeywords : list jsstring)
  : list Recommendation :=
  let recommendations := [] in
  let recommendations := rule_keywords bd missingKeywords recommendations in
  let recommendations := rule_structure bd resume recommendations in
  let recommendations := rule_contacts bd resume recommendations in
  let recommendations := rule_experience bd resume recommendations in
  rule_general recommendations.

(** The weighted sum of the four scores, added left to right. *)
Definition weightedSum (bd : Breakdown) : number :=
  fadd
    (fadd
       (fadd (fmul (Z2F (b_keywords bd)) weight_keywords)
          (fmul (Z2F (b_structure bd)) weight_structure))
       (fmul (Z2F (b_contacts bd)) weight_contacts))
    (fmul (Z2F (b_experience bd)) weight_experience).

Definition totalScore (bd : Breakdown) : Z := Math_round (weightedSum bd).

Definition analyzeResume (resumeText vacancyText : jsstring)
  : ATSAnalysisResult :=
  let parsedResume := parseResume resumeText in
  let vacancyRequirements := extractVacancyRequirements vacancyText in
  let '(keywordsScore, matchedKeywords, missingKeywords) :=
    analyzeKeywords parsedResume vacancyRequirements in
  let structureScore := analyzeStructure parsedResume in
  let contactsScore := analyzeContacts parsedResume in
  let experienceScore := analyzeExperience parsedResume vacancyRequirements in
  let breakdown :=
    {| b_keywords := keywordsScore;
       b_structure := structureScore;
       b_contacts := contactsScore;
       b_experience := experienceScore |} in
  let totalScore := totalScore breakdown in
  let recommendations :=
    generateRecommendations breakdown parsedResume vacancyRequirements
      matchedKeywords missingKeywords in
  {| score := totalScore;
     breakdown := breakdown;
     recommendations := recommendations;
     parsedResume := parsedResume;
     matchedKeywords := matchedKeywords;
     missingKeywords := missingKeywords |}.

End Analyzer.

(** ** The request handler (src/app/api/analyze/route.ts, [POST])

    The handler reads the request body as JSON and answers with a status
    and a JSON payload; what it writes to the console is kept as a list of
    log entries.  The body is given as the outcome of [request.json()]:
    [None] when the promise rejects, otherwise the parsed value. *)

#[warnings="-register-all"]
Inductive json :=
| JNull
| JBool (b : bool)
| JNumber (x : number)
| JString (s : jsstring)
| JArray (items : list json)
| JObject (fields : list (jsstring * json)).

(** The own property [key] of a parsed object; of repeated keys
    [JSON.parse] keeps the last. *)
Fixpoint lookupField (fields : list (jsstring * json)) (key : jsstring)
  : option json :=
  match fields with
  | [] => None
  | (k, v) :: rest =>
      match lookupField rest key with
      | Some v' => Some v'
      | None => if str_eqb k key then Some v else None
      end
  end.

(** A JavaScript evaluation that may throw. *)
Inductive outcome (A : Type) :=
| Value (a : A)
| Throws.
Arguments Value {A} a.
Arguments Throws {A}.

(** [body.key] for the two keys the handler reads: reading a property of
    [null] throws, primitives and arrays have no such property. *)
Definition getProperty (body : json) (key : jsstring)
  : outcome (option json) :=
  match body with
  | JNull => Throws
  | JObject fields => Value (lookupField fields key)
  | _ => Value None
  end.

Definition json_truthy (v : option json) : bool :=
  match v with
  | None => false
  | Some JNull => false
  | Some (JBool b) => b
  | Some (JNumber x) =>
      match x with
      | S754_zero _ | S754_nan => false
      | _ => true
      end
  | Some (JString s) => truthy s
  | Some (JArray _) | Some (JObject _) => true
  end.

(** [v.trim()]: only a string has a callable [trim]. *)
Definition call_trim (v : option json) : outcome jsstring :=
  match v with
  | Some (JString s) => Value (trim s)
  | _ => Throws
  end.

Inductive payload :=
| ErrorBody (error : jsstring)
| ResultBody (result : ATSAnalysisResult).

Record response := mkResponse {
  status : nat;
  body : payload
}.

Inductive logEntry :=
| LogStarting (resumeLength vacancyLength : nat)
| LogCompleted (score : Z) (matchedKeywords : nat)
| LogError.

Definition serverError : response * list logEntry :=
  (mkResponse 500
     (ErrorBody (utf16 "Внутренняя ошибка сервера. Попробуйте позже.")),
   [LogError]).

Definition badRequest (message : string) : response * list logEntry :=
  (mkResponse 400 (ErrorBody (utf16 message)), []).

Section Route.

Variable toLowerCase : jsstring -> jsstring.

Definition POST (request_json : option json) : response * list logEntry :=
  match request_json with
  | None => serverError
  | Some body =>
      match getProperty body (utf16 "resumeText"),
            getProperty body (utf16 "vacancyText") with
      | Value resumeField, Value vacancyField =>
          if negb (json_truthy resumeField) || negb (json_truthy vacancyField)
          then badRequest "Необходимо предоставить текст резюме и вакансии"
          else
            match call_trim resumeField with
            | Throws => serverError
            | Value resumeText =>
                match call_trim vacancyField with
                | Throws => serverError
                | Value vacancyText =>
                    if negb (truthy (trim resumeText))
                    then badRequest "Резюме пустое или не содержит текста"
                    else if negb (truthy (trim vacancyText))
                    then badRequest "Вакансия пустая или не содержит текста"
                    else
                      let result :=
                        analyzeResume toLowerCase resumeText vacancyText in
                      (mkResponse 200 (ResultBody result),
                       [LogStarting (length resumeText) (length vacancyText);
                        LogCompleted (score result)
                          (length (matchedKeywords result))])
                end
            end
      | _, _ => serverError
      end
  end.

End Route.

(** ** A concrete case mapping for closed evaluations

    [toLowerCase] on the Basic Latin and Cyrillic blocks, code unit by code
    unit; other code units are left as they are. *)
Definition lowerUnit (c : char16) : char16 :=
  if ((65 <=? c) && (c <=? 90))%N then (c + 32)%N
  else if ((1040 <=? c) && (c <=? 1071))%N then (c + 32)%N
  else if ((1024 <=? c) && (c <=? 1039))%N then (c + 80)%N
  else c.

Definition toLowerCaseRu (s : jsstring) : jsstring := map lowerUnit s.

(** ** Specification-level notions

    The requirement occurs, case-insensitively, in the résumé's raw text. *)
Definition occursIn (toLowerCase : jsstring -> jsstring)
    (resume : ParsedResume) (requirement : jsstring) : bool :=
  includes (toLowerCase (rawText resume)) (toLowerCase requirement).

(** The full missing partition of the keyword matcher, before the cut to
    ten entries. *)
Definition fullMissing (toLowerCase : jsstring -> jsstring)
    (resumeText vacancyText : jsstring) : list jsstring :=
  filter (fun r => negb (occursIn toLowerCase (parseResume toLowerCase resumeText) r))
    (allRequirements (extractVacancyRequirements toLowerCase vacancyText)).



(** The claim that the keyword recommendation states the size of the full
    missing partition. *)
Definition statesFullMissingCount (toLowerCase : jsstring -> jsstring)
    (resumeText vacancyText : jsstring) : Prop :=
  let result := analyzeResume toLowerCase resumeText vacancyText in
  forall rec,
    In rec (recommendations result) ->
    title rec = title (rec_keywords []) ->
    description rec =
    keywordsDescription (length (fullMissing toLowerCase resumeText vacancyText)).

(** The missing-keyword report as claimed: the reported list is the first
    ten entries of the missing partition, and the keyword recommendation
    states the size of the whole partition. *)
Definition reportsFullMissingCount (toLowerCase : jsstring -> jsstring)
    (resumeText vacancyText : jsstring) : Prop :=
  let result := analyzeResume toLowerCase resumeText vacancyText in
  let full := fullMissing toLowerCase resumeText vacancyText in
  length (missingKeywords result) <= 10
  /\ missingKeywords result = firstn 10 full
  /\ statesFullMissingCount toLowerCase resumeText vacancyText.

(** ** Scenario inputs *)

Definition lines (l : list string) : jsstring := join [newline] (map utf16 l).

Definition resume_ivan : jsstring :=
  lines ["Иван Иванов"; "ivan@mail.ru"; "+7 900 123 45 67";
         "Опыт работы: 3 года Python разработки, Docker, Git"].

Definition vacancy_python : jsstring :=
  utf16 "Ищем Python разработчика с опытом Docker и Git".


Definition resume_blocks : jsstring :=
  lines ["Опыт работы"; "Backend developer"; "Образование"; "МГУ"].

Definition resume_name_second : jsstring :=
  lines ["ivan@mail.ru"; "Иван Иванов"].

Definition resume_name_split : jsstring := lines ["Иван"; "Иванов"].

Definition resume_position : jsstring := utf16 "Должность: Программист".

Definition resume_cv : jsstring := utf16 "cv".

Definition vacancy_many : jsstring :=
  utf16 "python java react angular vue django flask spring sql redis docker kubernetes".

(** ** Exhaustive checks of the binary64 computations

    The rounded scores depend on a handful of small integers, so their
    ranges are settled by evaluating the binary64 expressions of the source
    on every combination that can arise. *)

Definition in_0_100 (z : Z) : bool := ((0 <=? z) && (z <=? 100))%Z.

(** Every keyword score over a requirement list of [n] entries; the value
    handed to [Math.round] is finite. *)
Definition keywordScore_ok (n : nat) : bool :=
  forallb (fun m => is_finite (keywordRatio m n)
                    && in_0_100 (keywordScore m n))
    (seq 0 (S n)).

(** The structure score as a function of what [analyzeStructure] reads from
    the résumé: the number of expected sections found, the presence of the
    contacts section and the line-count test. *)
Definition structureSum (found : nat) (hasContacts manyLines : bool)
  : number :=
  let score := Z2F 0 in
  let score :=
    fadd score
      (fmul (fdiv (Z2F (Z.of_nat found))
               (Z2F (Z.of_nat (length expectedSections))))
         (Z2F 70)) in
  let score := if hasContacts then fadd score (Z2F 15) else score in
  if manyLines then fadd score (Z2F 15) else score.

Definition structureScore (found : nat) (hasContacts manyLines : bool) : Z :=
  Z.min (Math_round (structureSum found hasContacts manyLines)) 100.

Definition structureValues : list Z :=
  flat_map (fun found =>
    flat_map (fun c => map (structureScore found c) [false; true])
      [false; true])
    (seq 0 4).

Definition contactsValues : list Z := [0; 20; 40; 60; 80; 100]%Z.

Definition totalScore_ok (k : Z) : bool :=
  forallb (fun s =>
    forallb (fun c =>
               let bd := mkBreakdown k s c 0 in
               is_finite (weightedSum bd) && in_0_100 (totalScore bd))
      contactsValues)
    structureValues.

(** The structure scores of a résumé whose raw text is a single line. *)
Definition structureValuesOneLine : list Z :=
  flat_map (fun found => map (fun c => structureScore found c false)
                           [false; true])
    (seq 0 4).

(** With the experience score at 0 and a one-line raw text the overall
    score does not exceed 81. *)
Definition totalScoreCap_ok (k : Z) : bool :=
  forallb (fun s =>
    forallb (fun c => (totalScore (mkBreakdown k s c 0) <=? 81)%Z)
      contactsValues)
    structureValuesOneLine.

(** Over [n] requirements one more match never lowers the keyword score;
    the score is 0 without a match and reaches 100 only when all match. *)
Definition keywordScore_steps_ok (n : nat) : bool :=
  forallb (fun m => (keywordScore m n <=? keywordScore (S m) n)%Z
                    && negb (keywordScore m n =? 100)%Z)
    (seq 0 n)
  && (keywordScore n n =? 100)%Z && (keywordScore 0 n =? 0)%Z.

(** The number of occurrences of a word in a list of words. *)
Definition occurrences (word : jsstring) (words : list jsstring) : nat :=
  length (filter (str_eqb word) words).

(** No string of the list occurs twice. *)
Fixpoint distinctb (l : list jsstring) : bool :=
  match l with
  | [] => true
  | x :: r => negb (arr_includes r x) && distinctb r
  end.

(** Collapsing white space directly: every maximal run of white-space
    code units becomes one U+0020.  [inRun] tells that the previous code
    unit was white space. *)
Fixpoint collapseSpaces (inRun : bool) (s : jsstring) : jsstring :=
  match s with
  | [] => []
  | c :: r =>
      if isWhiteSpace c
      then if inRun then collapseSpaces true r
           else 32%N :: collapseSpaces true r
      else c :: collapseSpaces false r
  end.

(** Every white-space code unit is U+0020 and follows a code unit that is
    not white space ([afterSpace] stands for the code unit before [s]). *)
Fixpoint singleSpaced (afterSpace : bool) (s : jsstring) : bool :=
  match s with
  | [] => true
  | c :: r =>
      if isWhiteSpace c
      then (c =? 32)%N && negb afterSpace && singleSpaced true r
      else singleSpaced false r
  end.

(** The text rebuilt from a global scan with every match replaced by one
    space. *)
Definition replaced (segments : list segment) : jsstring :=
  flat_map (fun g => match g with Hit _ => utf16 " " | Lit c => [c] end)
    segments.

(** [wordFreq[word] || 0]: the count recorded for a word in the frequency
    table. *)
Fixpoint countOf (acc : list (jsstring * nat)) (word : jsstring) : nat :=
  match acc with
  | [] => 0
  | (w, n) :: rest => if str_eqb w word then n else countOf rest word
  end.

(** Frequencies do not increase along the list. *)
Definition byFrequency (a b : jsstring * nat) : Prop := snd b <= snd a.

(** Some keyword of the list occurs in the trimmed, lower-cased line. *)
Definition lineMentions (toLowerCase : jsstring -> jsstring)
    (kws : list jsstring) (line : jsstring) : bool :=
  existsb (includes (trim (toLowerCase line))) kws.

(** A line the block extraction may collect: a non-blank line of the text
    that mentions no section keyword of any category. *)
Definition plainLine (toLowerCase : jsstring -> jsstring)
    (text line : jsstring) : Prop :=
  In line (split newline text)
  /\ truthy (trim line) = true
  /\ lineMentions toLowerCase (flat_map standardSections sectionTypes) line
     = false.

(** Some recommendation of the list carries the title. *)
Definition recommends (recs : list Recommendation) (t : jsstring) : Prop :=
  exists rec, In rec recs /\ title rec = t.

(** The labels collected by the structure and the contacts rule. *)
Definition missingSectionsOf (resume : ParsedResume) : list jsstring :=
  let absent (t : sectionType) (label : string) :=
    if negb (sections_includes (sections resume) t)
    then [utf16 label] else [] in
  absent experience "опыт работы" ++ absent education "образование"
    ++ absent skills "навыки".

Definition missingContactsOf (resume : ParsedResume) : list jsstring :=
  let absent (field : option jsstring) (label : string) :=
    if negb (truthy_opt field) then [utf16 label] else [] in
  absent (email resume) "email" ++ absent (phone resume) "телефон"
    ++ absent (name resume) "ФИО".

(** * Properties *)

(** ** The runtime fragment *)

Lemma str_eqb_eq (a b : jsstring) : str_eqb a b = true <-> a = b.
Proof.
  revert b; induction a as [|x a IH]; intros [|y b]; simpl; split;
    try congruence; intro H.
  - apply andb_true_iff in H as [Hx Hr]. apply N.eqb_eq in Hx.
    apply IH in Hr. congruence.
  - injection H as -> ->. rewrite N.eqb_refl. simpl. now apply IH.
Qed.

Lemma trimStart_incl (s : jsstring) (c : char16) :
  In c (trimStart s) -> In c s.
Proof.
  induction s as [|x s IH]; simpl; auto.
  destruct (isWhiteSpace x); simpl; auto.
Qed.

Lemma trim_incl (s : jsstring) (c : char16) : In c (trim s) -> In c s.
Proof.
  unfold trim, trimEnd. intro H.
  rewrite <- in_rev in H. apply trimStart_incl in H.
  rewrite <- in_rev in H. now apply trimStart_incl in H.
Qed.

(** The class [\s] of the regular expressions is the set stripped by
    [trim]. *)
Lemma ws_class_isWhiteSpace (c : char16) :
  cset_mem ws_class c = isWhiteSpace c.
Proof.
  assert (one_point : forall a, ((a <=? c) && (c <=? a) = (c =? a))%N).
  { intro a. destruct (N.eqb_spec c a) as [->|Hn].
    - now rewrite N.leb_refl.
    - destruct (N.leb_spec a c), (N.leb_spec c a); try reflexivity; lia. }
  assert (two_points :
            ((8232 <=? c) && (c <=? 8233) = (c =? 8232) || (c =? 8233))%N).
  { destruct (N.eqb_spec c 8232) as [->|H1]; [reflexivity|].
    destruct (N.eqb_spec c 8233) as [->|H2]; [reflexivity|].
    destruct (N.leb_spec 8232 c), (N.leb_spec c 8233); try reflexivity; lia. }
  unfold cset_mem, ws_class, isWhiteSpace. cbn [existsb fst snd].
  rewrite !one_point, two_points, orb_false_r.
  repeat rewrite <- orb_assoc. reflexivity.
Qed.

(** A string without the separator splits into itself. *)
Lemma split_from_no_sep (sep : char16) (s cur : jsstring) :
  ~ In sep s -> split_from sep s cur = [rev cur ++ s].
Proof.
  revert cur; induction s as [|c s IH]; intros cur Hn; simpl.
  - now rewrite app_nil_r.
  - destruct (N.eqb_spec c sep) as [->|Hc].
    + exfalso. apply Hn. now left.
    + rewrite IH by (intro Hi; apply Hn; now right).
      simpl. now rewrite <- app_assoc.
Qed.

Lemma split_no_sep (sep : char16) (s : jsstring) :
  ~ In sep s -> split sep s = [s].
Proof. intro H. unfold split. now rewrite split_from_no_sep. Qed.

Lemma split_limit_length (sep : char16) (limit : nat) (s : jsstring) :
  length (split_limit sep limit s) <= limit.
Proof. unfold split_limit. apply firstn_le_length. Qed.

(** [/\s+/] at a position: the greedy loop over [\s] never fails once the
    first code unit is white space, and it consumes that code unit. *)
Lemma rep_loop_unfold (atom : matcher) (fuel mn : nat) (mx : option nat)
    (k : cont) (s : rstate) :
  rep_loop atom (S fuel) mn mx k s =
  match mx with
  | Some O => k s
  | _ =>
      match mn with
      | S mn' =>
          atom (fun s' => rep_loop atom fuel mn' (option_map Nat.pred mx) k s')
            s
      | O =>
          match
            atom (fun s' =>
                    if Nat.ltb (length (after s')) (length (after s))
                    then rep_loop atom fuel 0 (option_map Nat.pred mx) k s'
                    else None) s
          with
          | Some e => Some e
          | None => k s
          end
      end
  end.
Proof. reflexivity. Qed.

Lemma run_char (cls : cset) (k : cont) (s : rstate) :
  run (Char cls) k s =
  match after s with
  | c :: rest =>
      if cset_mem cls c then k (mkState (c :: before s) rest (caps s))
      else None
  | [] => None
  end.
Proof. reflexivity. Qed.

Lemma ws_loop_some (fuel : nat) :
  forall s, exists e,
    rep_loop (run (Char ws_class)) (S fuel) 0 None Some s = Some e
    /\ length (after e) <= length (after s).
Proof.
  induction fuel as [|fuel IH]; intros [bef aft cps];
    rewrite rep_loop_unfold, run_char; cbn [option_map after before caps].
  - exists (mkState bef aft cps).
    destruct aft as [|c rest]; auto.
    destruct (cset_mem ws_class c); auto.
    destruct (Nat.ltb _ _); auto.
  - destruct aft as [|c rest].
    + exists (mkState bef [] cps). auto.
    + destruct (cset_mem ws_class c).
      * replace (Nat.ltb (length rest) (length (c :: rest))) with true
          by (symmetry; apply Nat.ltb_lt; simpl; lia).
        destruct (IH (mkState (c :: bef) rest cps)) as (e & He & Hl).
        exists e. rewrite He. cbn [after] in Hl.
        split; [reflexivity | simpl; lia].
      * exists (mkState bef (c :: rest) cps). auto.
Qed.

Lemma match_here_whitespace (bef : jsstring) (c : char16) (t : jsstring) :
  if cset_mem ws_class c
  then exists e, match_here re_whitespace bef (c :: t) = Some e
                 /\ length (after e) <= length t
  else match_here re_whitespace bef (c :: t) = None.
Proof.
  unfold match_here, re_whitespace, plus.
  change (run (Repeat 1 None (Char ws_class)) Some (mkState bef (c :: t) []))
    with (rep_loop (run (Char ws_class)) (S (S (S (length t)))) 1 None Some
            (mkState bef (c :: t) [])).
  rewrite rep_loop_unfold, run_char. cbn [option_map after before caps].
  destruct (cset_mem ws_class c); [|reflexivity].
  cbn [length Nat.add].
  destruct (ws_loop_some (S (length t)) (mkState (c :: bef) t []))
    as (e & He & Hl).
  exists e. split; [exact He | exact Hl].
Qed.

Lemma match_here_whitespace_nil (bef : jsstring) :
  match_here re_whitespace bef [] = None.
Proof. reflexivity. Qed.

(** Code units that the global [\s+] scan passes through literally are not
    white space. *)
Lemma scan_whitespace_lit (aft : jsstring) :
  forall bef skip c,
    In (Lit c) (scan re_whitespace bef aft skip) ->
    cset_mem ws_class c = false.
Proof.
  induction aft as [|x t IH]; intros bef skip c H.
  - destruct skip; cbn [scan] in H;
      [rewrite match_here_whitespace_nil in H|]; destruct H.
  - destruct skip as [|n]; cbn [scan] in H.
    + pose proof (match_here_whitespace bef x t) as Hm.
      destruct (cset_mem ws_class x) eqn:Hx.
      * destruct Hm as (e & He & Hl). rewrite He in H.
        destruct (length (x :: t) - length (after e)) as [|n] eqn:Hlen.
        { change (length (x :: t)) with (S (length t)) in Hlen. lia. }
        destruct H as [H|H]; [discriminate|]. eapply IH; eauto.
      * rewrite Hm in H. destruct H as [H|H].
        { injection H as <-. exact Hx. }
        eapply IH; eauto.
    + eapply IH; eauto.
Qed.

Lemma normalizeText_chars (text : jsstring) (c : char16) :
  In c (normalizeText text) -> c = 32%N \/ cset_mem ws_class c = false.
Proof.
  unfold normalizeText, String_replace_all. intro H.
  apply trim_incl in H. apply in_flat_map in H as (g & Hg & Hc).
  destruct g as [x|m].
  - right. destruct Hc as [<-|[]]. eapply scan_whitespace_lit; eauto.
  - left. destruct Hc as [<-|[]]. reflexivity.
Qed.

(** The normalized text holds no newline: it is a single line. *)
Lemma normalizeText_one_line (text : jsstring) :
  split newline (normalizeText text) = [normalizeText text].
Proof.
  apply split_no_sep. intro H.
  apply normalizeText_chars in H as [H|H]; discriminate.
Qed.

(** ** The fields of the result of [analyzeResume] *)

Section ResultFields.

Variable toLowerCase : jsstring -> jsstring.
Variables resumeText vacancyText : jsstring.

Let result := analyzeResume toLowerCase resumeText vacancyText.
Let resume := parseResume toLowerCase resumeText.
Let requirements := extractVacancyRequirements toLowerCase vacancyText.
Let kw := analyzeKeywords toLowerCase resume requirements.

Lemma result_parsedResume : parsedResume result = resume.
Proof.
  unfold result, analyzeResume.
  destruct (analyzeKeywords _ _ _) as [[k m] ms]. reflexivity.
Qed.

Lemma result_breakdown :
  breakdown result =
  {| b_keywords := fst (fst kw);
     b_structure := analyzeStructure resume;
     b_contacts := analyzeContacts resume;
     b_experience := analyzeExperience toLowerCase resume requirements |}.
Proof.
  unfold result, analyzeResume, kw, resume, requirements.
  destruct (analyzeKeywords _ _ _) as [[k m] ms]. reflexivity.
Qed.

Lemma result_score : score result = totalScore (breakdown result).
Proof.
  unfold result, analyzeResume.
  destruct (analyzeKeywords _ _ _) as [[k m] ms]. reflexivity.
Qed.

Lemma result_matchedKeywords : matchedKeywords result = snd (fst kw).
Proof.
  unfold result, analyzeResume, kw, resume, requirements.
  destruct (analyzeKeywords _ _ _) as [[k m] ms]. reflexivity.
Qed.

Lemma result_missingKeywords : missingKeywords result = snd kw.
Proof.
  unfold result, analyzeResume, kw, resume, requirements.
  destruct (analyzeKeywords _ _ _) as [[k m] ms]. reflexivity.
Qed.

Lemma result_recommendations :
  recommendations result =
  generateRecommendations (breakdown result) resume requirements
    (matchedKeywords result) (missingKeywords result).
Proof.
  unfold result, analyzeResume, resume, requirements.
  destruct (analyzeKeywords _ _ _) as [[k m] ms]. reflexivity.
Qed.

End ResultFields.

(** ** Block extraction on the normalized text *)

Lemma sectionLoop_one_line (toLowerCase : jsstring -> jsstring)
    (t : sectionType) (line : jsstring) :
  sectionLoop toLowerCase t [line] false [] = [].
Proof.
  cbn [sectionLoop].
  destruct (existsb _ (standardSections t)); reflexivity.
Qed.

Lemma extractExperienceSection_normalized
    (toLowerCase : jsstring -> jsstring) (text : jsstring) :
  extractExperienceSection toLowerCase (normalizeText text) = [].
Proof.
  unfold extractExperienceSection.
  now rewrite normalizeText_one_line, sectionLoop_one_line.
Qed.

Lemma extractEducationSection_normalized
    (toLowerCase : jsstring -> jsstring) (text : jsstring) :
  extractEducationSection toLowerCase (normalizeText text) = [].
Proof.
  unfold extractEducationSection.
  now rewrite normalizeText_one_line, sectionLoop_one_line.
Qed.

Lemma parseResume_experienceText (toLowerCase : jsstring -> jsstring)
    (text : jsstring) :
  experienceText (parseResume toLowerCase text) = [].
Proof. apply extractExperienceSection_normalized. Qed.

Lemma analyzeExperience_parsed (toLowerCase : jsstring -> jsstring)
    (text : jsstring) (requirements : VacancyRequirements) :
  analyzeExperience toLowerCase (parseResume toLowerCase text) requirements
  = 0%Z.
Proof.
  unfold analyzeExperience. now rewrite parseResume_experienceText.
Qed.

(** C3.  For every pair of inputs the parsed résumé has an empty experience
    text and an empty education text, and the experience score is 0: the
    normalized text is one line, and the line loop collects nothing from a
    single line. *)
Theorem C3_experience_always_empty :
  forall (toLowerCase : jsstring -> jsstring) (resumeText vacancyText : jsstring),
    let result := analyzeResume toLowerCase resumeText vacancyText in
    split newline (rawText (parsedResume result))
      = [rawText (parsedResume result)]
    /\ experienceText (parsedResume result) = []
    /\ educationText (parsedResume result) = []
    /\ b_experience (breakdown result) = 0%Z.
Proof.
  intros toLowerCase resumeText vacancyText result. subst result.
  rewrite result_parsedResume, result_breakdown. cbn [b_experience].
  repeat split.
  - apply normalizeText_one_line.
  - apply extractExperienceSection_normalized.
  - apply extractEducationSection_normalized.
  - apply analyzeExperience_parsed.
Qed.

(** ** Keyword matching *)

Section KeywordMatching.

Variable toLowerCase : jsstring -> jsstring.

(** The partition loop pushes exactly the requirements that occur onto
    [matched] and the others onto [missing], in order. *)
Lemma partition_fold (lower : jsstring) (reqs m0 x0 : list jsstring) :
  fold_left (partitionStep toLowerCase lower) reqs (m0, x0) =
  (m0 ++ filter (fun r => includes lower (toLowerCase r)) reqs,
   x0 ++ filter (fun r => negb (includes lower (toLowerCase r))) reqs).
Proof.
  revert m0 x0; induction reqs as [|r reqs IH]; intros m0 x0; simpl.
  - now rewrite !app_nil_r.
  - unfold partitionStep at 2. cbn [fst snd].
    destruct (includes lower (toLowerCase r)); simpl;
      rewrite IH, <- app_assoc; reflexivity.
Qed.

Lemma partitionRequirements_filter (resume : ParsedResume)
    (requirements : VacancyRequirements) :
  partitionRequirements toLowerCase resume requirements =
  (filter (occursIn toLowerCase resume) (allRequirements requirements),
   filter (fun r => negb (occursIn toLowerCase resume r)) (allRequirements requirements)).
Proof. unfold partitionRequirements. now rewrite partition_fold. Qed.

Lemma analyzeKeywords_eq (resume : ParsedResume)
    (requirements : VacancyRequirements) :
  analyzeKeywords toLowerCase resume requirements =
  let all := allRequirements requirements in
  let matched := filter (occursIn toLowerCase resume) all in
  let missing := filter (fun r => negb (occursIn toLowerCase resume r)) all in
  match all with
  | [] => (100%Z, [], [])
  | _ :: _ =>
      (keywordScore (length matched) (length all), matched, firstn 10 missing)
  end.
Proof.
  unfold analyzeKeywords. rewrite partitionRequirements_filter. reflexivity.
Qed.

End KeywordMatching.

(** ** Score ranges *)

Lemma keywordScore_check : forallb keywordScore_ok (seq 1 81) = true.
Proof. vm_compute. reflexivity. Qed.

Lemma in_0_100_spec (z : Z) : in_0_100 z = true -> (0 <= z <= 100)%Z.
Proof. unfold in_0_100. intro H. apply andb_true_iff in H. lia. Qed.

Lemma keywordScore_bounds (m n : nat) :
  m <= n -> 1 <= n <= 81 ->
  is_finite (keywordRatio m n) = true /\ (0 <= keywordScore m n <= 100)%Z.
Proof.
  intros Hm Hn.
  pose proof keywordScore_check as H.
  rewrite forallb_forall in H.
  specialize (H n ltac:(apply in_seq; lia)).
  unfold keywordScore_ok in H. rewrite forallb_forall in H.
  specialize (H m ltac:(apply in_seq; lia)).
  apply andb_true_iff in H as [Hf Hr].
  split; [exact Hf | now apply in_0_100_spec].
Qed.

Lemma itSkills_length : length itSkills = 49.
Proof. reflexivity. Qed.

Lemma softSkills_length : length softSkills = 12.
Proof. reflexivity. Qed.

(** At most 49 + 12 + 20 requirements are extracted from a vacancy. *)
Lemma allRequirements_length (toLowerCase : jsstring -> jsstring)
    (vacancyText : jsstring) :
  length (allRequirements (extractVacancyRequirements toLowerCase vacancyText))
  <= 81.
Proof.
  unfold allRequirements, extractVacancyRequirements.
  cbn [technicalSkills softSkillsReq keywords].
  rewrite !length_app, length_map.
  pose proof (filter_length_le
                (fun skill => includes (toLowerCase vacancyText)
                                (toLowerCase skill)) itSkills) as H1.
  pose proof (filter_length_le
                (fun skill => includes (toLowerCase vacancyText)
                                (toLowerCase skill)) softSkills) as H2.
  rewrite itSkills_length in H1. rewrite softSkills_length in H2.
  match goal with |- context [firstn 20 ?l] =>
    pose proof (firstn_le_length 20 l) as H3 end.
  lia.
Qed.

Lemma analyzeKeywords_bounds (toLowerCase : jsstring -> jsstring)
    (resume : ParsedResume) (vacancyText : jsstring) :
  (0 <= fst (fst (analyzeKeywords toLowerCase resume
                    (extractVacancyRequirements toLowerCase vacancyText)))
     <= 100)%Z.
Proof.
  rewrite analyzeKeywords_eq. cbv zeta.
  pose proof (allRequirements_length toLowerCase vacancyText) as Hlen.
  destruct (allRequirements _) as [|r reqs] eqn:E; cbn [fst]; [lia|].
  apply keywordScore_bounds.
  - apply filter_length_le.
  - simpl in *. lia.
Qed.

Lemma structureScore_eq (resume : ParsedResume) :
  analyzeStructure resume =
  structureScore
    (length (filter (sections_includes (sections resume)) expectedSections))
    (sections_includes (sections resume) contacts)
    (Nat.ltb 5 (length (split newline (rawText resume)))).
Proof. reflexivity. Qed.

Lemma analyzeStructure_values (resume : ParsedResume) :
  In (analyzeStructure resume) structureValues.
Proof.
  rewrite structureScore_eq.
  pose proof (filter_length_le (sections_includes (sections resume))
                expectedSections) as Hf.
  change (length expectedSections) with 3 in Hf.
  destruct (length (filter _ expectedSections)) as [|[|[|[|n]]]];
    [| | | |lia];
    destruct (sections_includes (sections resume) contacts);
    destruct (Nat.ltb 5 _);
    vm_compute; tauto.
Qed.

Lemma analyzeContacts_values (resume : ParsedResume) :
  In (analyzeContacts resume) contactsValues.
Proof.
  unfold analyzeContacts.
  destruct (truthy_opt (email resume)), (truthy_opt (phone resume)),
    (truthy_opt (name resume)); vm_compute; tauto.
Qed.

Lemma analyzeExperience_bounds (toLowerCase : jsstring -> jsstring)
    (resume : ParsedResume) (requirements : VacancyRequirements) :
  (0 <= analyzeExperience toLowerCase resume requirements <= 100)%Z.
Proof.
  unfold analyzeExperience.
  destruct (negb (truthy (experienceText resume))); [lia|].
  destruct (Nat.ltb 200 _); [|destruct (Nat.ltb 100 _);
                                [|destruct (Nat.ltb 50 _)]];
    destruct (Nat.ltb 0 _); lia.
Qed.

Lemma totalScore_check :
  forallb totalScore_ok (map Z.of_nat (seq 0 101)) = true.
Proof. vm_compute. reflexivity. Qed.

Lemma totalScore_bounds (k s c : Z) :
  (0 <= k <= 100)%Z -> In s structureValues -> In c contactsValues ->
  is_finite (weightedSum (mkBreakdown k s c 0)) = true
  /\ (0 <= totalScore (mkBreakdown k s c 0) <= 100)%Z.
Proof.
  intros Hk Hs Hc.
  pose proof totalScore_check as H. rewrite forallb_forall in H.
  assert (Hin : In k (map Z.of_nat (seq 0 101))).
  { replace k with (Z.of_nat (Z.to_nat k)) by lia.
    apply in_map. apply in_seq. lia. }
  specialize (H k Hin). unfold totalScore_ok in H.
  rewrite forallb_forall in H. specialize (H s Hs).
  rewrite forallb_forall in H. specialize (H c Hc). cbv zeta in H.
  apply andb_true_iff in H as [Hf Hr].
  split; [exact Hf | now apply in_0_100_spec].
Qed.

Lemma In_bounds_0_100 (l : list Z) (z : Z) :
  forallb in_0_100 l = true -> In z l -> (0 <= z <= 100)%Z.
Proof.
  intros H Hz. rewrite forallb_forall in H. now apply in_0_100_spec, H.
Qed.

(** C1.  For every pair of inputs the overall score and the four scores of
    the breakdown are integers between 0 and 100. *)
Theorem C1_scores_in_range :
  forall (toLowerCase : jsstring -> jsstring) (resumeText vacancyText : jsstring),
    let result := analyzeResume toLowerCase resumeText vacancyText in
    (0 <= score result <= 100)%Z
    /\ (0 <= b_keywords (breakdown result) <= 100)%Z
    /\ (0 <= b_structure (breakdown result) <= 100)%Z
    /\ (0 <= b_contacts (breakdown result) <= 100)%Z
    /\ (0 <= b_experience (breakdown result) <= 100)%Z.
Proof.
  intros toLowerCase resumeText vacancyText result. subst result.
  rewrite result_score, result_breakdown.
  cbn [b_keywords b_structure b_contacts b_experience].
  pose proof (analyzeKeywords_bounds toLowerCase
                (parseResume toLowerCase resumeText) vacancyText) as Hk.
  pose proof (analyzeStructure_values (parseResume toLowerCase resumeText))
    as Hs.
  pose proof (analyzeContacts_values (parseResume toLowerCase resumeText))
    as Hc.
  rewrite analyzeExperience_parsed.
  split; [now apply totalScore_bounds|].
  split; [exact Hk|].
  split; [eapply In_bounds_0_100; [|exact Hs]; vm_compute; reflexivity|].
  split; [eapply In_bounds_0_100; [|exact Hc]; vm_compute; reflexivity|].
  lia.
Qed.

(** ** The frequency table *)






Lemma none_by_check {A} (f : A -> bool) (l : list A) :
  forallb (fun x => negb (f x)) l = true ->
  forall x, In x l -> f x = false.
Proof.
  intros H x Hx. rewrite forallb_forall in H.
  apply negb_true_iff. now apply H.
Qed.


(** The binary64 evaluation matters: 23 matches out of 40 requirements
    score 57, where the exact quotient 57.5 would round to 58. *)
Example keywordScore_23_of_40 : keywordScore 23 40 = 57%Z.
Proof. vm_compute. reflexivity. Qed.

(** ** The structure score *)

Lemma existsb_none {A} (f : A -> bool) (l : list A) :
  (forall x, In x l -> f x = false) -> existsb f l = false.
Proof.
  induction l as [|x l IH]; intro H; simpl; [reflexivity|].
  rewrite (H x) by now left. apply IH. intros y Hy. apply H. now right.
Qed.


Lemma structureSum_finite (found : nat) (hasContacts manyLines : bool) :
  found <= 3 -> is_finite (structureSum found hasContacts manyLines) = true.
Proof.
  intro H. destruct found as [|[|[|[|n]]]]; [| | | |lia];
    destruct hasContacts, manyLines; vm_compute; reflexivity.
Qed.




(** ** Position extraction *)

Lemma extractPosition_keywords_none (line lowerLine : jsstring)
    (kws : list jsstring) :
  extractPosition_keywords line lowerLine kws = None.
Proof.
  induction kws as [|keyword kws IH]; simpl; [reflexivity|].
  destruct (includes lowerLine keyword); [|exact IH].
  pose proof (split_limit_length colon 1 line) as Hl.
  replace (Nat.ltb 1 (length (split_limit colon 1 line))) with false
    by (symmetry; apply Nat.ltb_ge; exact Hl).
  exact IH.
Qed.

(** [split(':', 1)] yields at most one part, so the test
    [parts.length > 1] never holds and no position is ever returned. *)
Lemma extractPosition_undefined (toLowerCase : jsstring -> jsstring)
    (text : jsstring) :
  extractPosition toLowerCase text = None.
Proof.
  unfold extractPosition.
  induction (firstn 10 (split newline text)) as [|line rest IH];
    cbn [extractPosition_lines]; [reflexivity|].
  now rewrite extractPosition_keywords_none.
Qed.

(** C8 (failing input).  The résumé "Должность: Программист" has a line
    with a position keyword and a colon, yet no position is extracted: the
    split keeps the label only. *)
Theorem C8_position_not_extracted :
  let result := analyzeResume toLowerCaseRu resume_position vacancy_python in
  includes (toLowerCaseRu resume_position) (utf16 "должность") = true
  /\ In colon resume_position
  /\ split_limit colon 1 resume_position = [utf16 "Должность"]
  /\ position (parsedResume result) = None.
Proof.
  cbv zeta. rewrite result_parsedResume.
  split; [vm_compute; reflexivity|].
  split; [vm_compute; auto 20|].
  split; [vm_compute; reflexivity|].
  apply extractPosition_undefined.
Qed.

(** ** Line-based extraction behind the normalizer *)

(** C5 (failing input).  On the four-line résumé "Опыт работы / Backend
    developer / Образование / МГУ" the line automaton, run on the text as
    given, collects "Backend developer"; the parsed résumé nevertheless has
    an empty experience text and an empty education text, because the
    automaton is run on the normalized single line. *)
Theorem C5_block_extraction_on_normalized_text :
  let result := analyzeResume toLowerCaseRu resume_blocks vacancy_python in
  extractExperienceSection toLowerCaseRu resume_blocks
    = utf16 "Backend developer"
  /\ extractEducationSection toLowerCaseRu resume_blocks = utf16 "МГУ"
  /\ experienceText (parsedResume result) = []
  /\ educationText (parsedResume result) = [].
Proof. vm_compute. repeat split. Qed.

(** C7 (failing inputs).  With the name on the second line the parsed name
    is undefined although the line-wise scan of the text as given finds it;
    with "Иван" and "Иванов" on separate lines no line holds two capitalized
    words, yet a name is reported. *)
Theorem C7_name_extraction_on_normalized_text :
  extractName resume_name_second = Some (utf16 "Иван Иванов")
  /\ name (parseResume toLowerCaseRu resume_name_second) = None
  /\ extractName resume_name_split = None
  /\ name (parseResume toLowerCaseRu resume_name_split)
     = Some (utf16 "Иван Иванов").
Proof. vm_compute. repeat split. Qed.

(** ** The scenario of the specification *)

(** C6.  For the résumé "Иван Иванов / ivan@mail.ru / +7 900 123 45 67 /
    Опыт работы: 3 года Python разработки, Docker, Git" and the vacancy
    "Ищем Python разработчика с опытом Docker и Git": the name is
    "Иван Иванов", the e-mail "ivan@mail.ru", python, docker and git are
    matched, the contacts score is 100 and the overall score is at least
    60 (it is 62). *)
Theorem C6_scenario :
  let result := analyzeResume toLowerCaseRu resume_ivan vacancy_python in
  name (parsedResume result) = Some (utf16 "Иван Иванов")
  /\ email (parsedResume result) = Some (utf16 "ivan@mail.ru")
  /\ In (utf16 "python") (matchedKeywords result)
  /\ In (utf16 "docker") (matchedKeywords result)
  /\ In (utf16 "git") (matchedKeywords result)
  /\ b_contacts (breakdown result) = 100%Z
  /\ (60 <= score result)%Z.
Proof.
  cbv zeta.
  assert (Hs : score (analyzeResume toLowerCaseRu resume_ivan vacancy_python)
               = 62%Z) by (vm_compute; reflexivity).
  assert (Hm : matchedKeywords
                 (analyzeResume toLowerCaseRu resume_ivan vacancy_python)
               = [utf16 "python"; utf16 "docker"; utf16 "git"])
    by (vm_compute; reflexivity).
  rewrite Hs, Hm.
  split; [vm_compute; reflexivity|].
  split; [vm_compute; reflexivity|].
  split; [now left|].
  split; [now right; left|].
  split; [now right; right; left|].
  split; [vm_compute; reflexivity|lia].
Qed.

(** ** Recommendations *)

Section Rules.

Variables (bd : Breakdown) (resume : ParsedResume).

Lemma rule_keywords_In (mk : list jsstring) (recs : list Recommendation)
    (r : Recommendation) :
  In r (rule_keywords bd mk recs) -> In r recs \/ r = rec_keywords mk.
Proof.
  unfold rule_keywords.
  destruct (b_keywords bd <? 70)%Z; auto.
  destruct (Nat.ltb 0 (length mk)); auto.
  rewrite in_app_iff. cbn [In]. intros [H|[<-|[]]]; [now left|now right].
Qed.

Lemma rule_structure_In (recs : list Recommendation) (r : Recommendation) :
  In r (rule_structure bd resume recs) ->
  In r recs \/ exists ms, r = rec_sections ms.
Proof.
  unfold rule_structure.
  destruct (b_structure bd <? 70)%Z; auto.
  destruct (Nat.ltb 0 _); auto.
  rewrite in_app_iff. cbn [In]. intros [H|[<-|[]]]; eauto.
Qed.

Lemma rule_contacts_In (recs : list Recommendation) (r : Recommendation) :
  In r (rule_contacts bd resume recs) ->
  In r recs \/ exists mc, r = rec_contacts mc.
Proof.
  unfold rule_contacts.
  destruct (b_contacts bd <? 80)%Z; auto.
  destruct (Nat.ltb 0 _); auto.
  rewrite in_app_iff. cbn [In]. intros [H|[<-|[]]]; eauto.
Qed.

Lemma rule_experience_In (recs : list Recommendation) (r : Recommendation) :
  In r (rule_experience bd resume recs) ->
  In r recs \/ r = rec_no_experience \/ r = rec_short_experience.
Proof.
  unfold rule_experience.
  destruct (b_experience bd <? 60)%Z; auto.
  destruct (negb (truthy (experienceText resume)));
    [|destruct (Nat.ltb _ 100); [|now left]];
    rewrite in_app_iff; cbn [In]; intros [H|[<-|[]]];
    [now left | right; now left | now left | right; now right].
Qed.

Lemma rule_general_In (recs : list Recommendation) (r : Recommendation) :
  In r (rule_general recs) -> In r recs \/ (recs = [] /\ r = rec_well_done).
Proof.
  unfold rule_general.
  destruct recs as [|x recs]; cbn [length Nat.eqb app In].
  - intros [<-|[]]. right. now split.
  - intro H. now left.
Qed.

(** Every recommendation is one of the six texts. *)
Lemma generateRecommendations_In (requirements : VacancyRequirements)
    (matched mk : list jsstring) (r : Recommendation) :
  In r (generateRecommendations bd resume requirements matched mk) ->
  r = rec_keywords mk
  \/ (exists ms, r = rec_sections ms)
  \/ (exists mc, r = rec_contacts mc)
  \/ r = rec_no_experience
  \/ r = rec_short_experience
  \/ r = rec_well_done.
Proof.
  unfold generateRecommendations. intro H.
  apply rule_general_In in H as [H|[_ ->]]; [|do 5 right; reflexivity].
  apply rule_experience_In in H as [H|[->| ->]];
    [|do 3 right; left; reflexivity|do 4 right; left; reflexivity].
  apply rule_contacts_In in H as [H|H]; [|right; right; left; exact H].
  apply rule_structure_In in H as [H|H]; [|right; left; exact H].
  apply rule_keywords_In in H as [[]| ->]. left; reflexivity.
Qed.

End Rules.

Ltac distinct_titles :=
  cbn [title rec_keywords rec_sections rec_contacts rec_no_experience
         rec_short_experience rec_well_done];
  vm_compute; discriminate.

Lemma rec_keywords_title (mk : list jsstring) :
  title (rec_keywords mk) = title (rec_keywords []).
Proof. cbn [title rec_keywords]. reflexivity. Qed.

Lemma rec_keywords_description (mk : list jsstring) :
  description (rec_keywords mk) = keywordsDescription (length mk).
Proof. reflexivity. Qed.

(** The keyword recommendation is recognised by its title. *)
Lemma keywords_title_unique (bd : Breakdown) (resume : ParsedResume)
    (requirements : VacancyRequirements) (matched mk : list jsstring)
    (r : Recommendation) :
  In r (generateRecommendations bd resume requirements matched mk) ->
  title r = title (rec_keywords []) ->
  r = rec_keywords mk.
Proof.
  intros Hin Ht.
  apply generateRecommendations_In in Hin
    as [->|[[ms ->]|[[mc ->]|[->|[->| ->]]]]];
    [reflexivity|exfalso; revert Ht; distinct_titles ..].
Qed.

Lemma well_done_title_unique (bd : Breakdown) (resume : ParsedResume)
    (requirements : VacancyRequirements) (matched mk : list jsstring)
    (r : Recommendation) :
  In r (generateRecommendations bd resume requirements matched mk) ->
  title r = utf16 "Отличная работа!" ->
  r = rec_well_done.
Proof.
  intros Hin Ht.
  apply generateRecommendations_In in Hin
    as [->|[[ms ->]|[[mc ->]|[->|[->| ->]]]]];
    [exfalso; revert Ht; distinct_titles .. | reflexivity].
Qed.

(** With an empty experience text and an experience score below 60 the
    list ends with the empty-experience warning, and the closing affirmation
    is not pushed. *)
Lemma generateRecommendations_no_experience (bd : Breakdown)
    (resume : ParsedResume) (requirements : VacancyRequirements)
    (matched mk : list jsstring) :
  (b_experience bd < 60)%Z ->
  experienceText resume = [] ->
  generateRecommendations bd resume requirements matched mk =
  rule_contacts bd resume (rule_structure bd resume (rule_keywords bd mk []))
    ++ [rec_no_experience].
Proof.
  intros Hb He. unfold generateRecommendations.
  unfold rule_experience at 1. rewrite He.
  replace (b_experience bd <? 60)%Z with true
    by (symmetry; apply Z.ltb_lt; exact Hb).
  cbn [truthy negb]. unfold rule_general.
  rewrite length_app. cbn [length].
  replace (length _ + 1) with (S (length (rule_contacts bd resume
    (rule_structure bd resume (rule_keywords bd mk []))))) by lia.
  reflexivity.
Qed.

(** C10.  For every pair of inputs the recommendations contain the warning
    titled "Детально опишите опыт работы", and no recommendation is the
    closing affirmation "Отличная работа!". *)
Theorem C10_experience_warning_always :
  forall (toLowerCase : jsstring -> jsstring) (resumeText vacancyText : jsstring),
    let result := analyzeResume toLowerCase resumeText vacancyText in
    In rec_no_experience (recommendations result)
    /\ rtype rec_no_experience = warning
    /\ title rec_no_experience = utf16 "Детально опишите опыт работы"
    /\ ~ In rec_well_done (recommendations result)
    /\ (forall rec, In rec (recommendations result) ->
          title rec <> utf16 "Отличная работа!").
Proof.
  intros toLowerCase resumeText vacancyText result. subst result.
  rewrite result_recommendations.
  assert (Hrecs :
    forall rec,
      In rec (generateRecommendations
                (breakdown (analyzeResume toLowerCase resumeText vacancyText))
                (parseResume toLowerCase resumeText)
                (extractVacancyRequirements toLowerCase vacancyText)
                (matchedKeywords
                   (analyzeResume toLowerCase resumeText vacancyText))
                (missingKeywords
                   (analyzeResume toLowerCase resumeText vacancyText))) ->
      title rec <> utf16 "Отличная работа!").
  { intros rec Hin Ht.
    rewrite generateRecommendations_no_experience in Hin.
    - apply in_app_iff in Hin as [Hin|[<-|[]]].
      + apply rule_contacts_In in Hin as [Hin|[mc ->]];
          [|revert Ht; distinct_titles].
        apply rule_structure_In in Hin as [Hin|[ms ->]];
          [|revert Ht; distinct_titles].
        apply rule_keywords_In in Hin as [[]| ->].
        revert Ht; distinct_titles.
      + revert Ht; distinct_titles.
    - rewrite result_breakdown. cbn [b_experience].
      rewrite analyzeExperience_parsed. lia.
    - apply parseResume_experienceText. }
  split.
  { rewrite generateRecommendations_no_experience.
    - apply in_app_iff. right. now left.
    - rewrite result_breakdown. cbn [b_experience].
      rewrite analyzeExperience_parsed. lia.
    - apply parseResume_experienceText. }
  split; [reflexivity|].
  split; [reflexivity|].
  split; [|exact Hrecs].
  intro Hin. apply (Hrecs _ Hin). reflexivity.
Qed.

(** ** The missing-keyword report *)

Lemma missingKeywords_firstn (toLowerCase : jsstring -> jsstring)
    (resumeText vacancyText : jsstring) :
  missingKeywords (analyzeResume toLowerCase resumeText vacancyText)
  = firstn 10 (fullMissing toLowerCase resumeText vacancyText).
Proof.
  rewrite result_missingKeywords, analyzeKeywords_eq. cbv zeta.
  unfold fullMissing.
  destruct (allRequirements _) as [|r reqs]; reflexivity.
Qed.

(** C9 (as the code has it).  The reported [missingKeywords] are the first
    ten entries of the missing partition, and the keyword recommendation,
    which receives that reported list, states its length: the size of the
    missing partition capped at 10. *)
Theorem C9_missing_report :
  forall (toLowerCase : jsstring -> jsstring) (resumeText vacancyText : jsstring),
    let result := analyzeResume toLowerCase resumeText vacancyText in
    let full := fullMissing toLowerCase resumeText vacancyText in
    length (missingKeywords result) <= 10
    /\ missingKeywords result = firstn 10 full
    /\ (forall rec,
          In rec (recommendations result) ->
          title rec = title (rec_keywords []) ->
          description rec = keywordsDescription (Nat.min 10 (length full))).
Proof.
  intros toLowerCase resumeText vacancyText result full. subst result full.
  pose proof (missingKeywords_firstn toLowerCase resumeText vacancyText) as Hm.
  split; [rewrite Hm; apply firstn_le_length|].
  split; [exact Hm|].
  intros rec Hin Ht. rewrite result_recommendations in Hin.
  apply keywords_title_unique in Hin; [|exact Ht]. subst rec.
  rewrite rec_keywords_description. now rewrite Hm, length_firstn.
Qed.

Lemma vacancy_many_full_missing :
  length (fullMissing toLowerCaseRu resume_cv vacancy_many) = 13.
Proof. vm_compute. reflexivity. Qed.

Lemma vacancy_many_reported :
  length (missingKeywords (analyzeResume toLowerCaseRu resume_cv vacancy_many))
  = 10.
Proof. vm_compute. reflexivity. Qed.

Lemma vacancy_many_recommendation :
  In (rec_keywords
        (missingKeywords (analyzeResume toLowerCaseRu resume_cv vacancy_many)))
    (recommendations (analyzeResume toLowerCaseRu resume_cv vacancy_many)).
Proof. vm_compute. left. reflexivity. Qed.

Lemma keywordsDescription_10_13 :
  keywordsDescription 10 <> keywordsDescription 13.
Proof. vm_compute. discriminate. Qed.

(** With thirteen requirements missing the report holds ten keywords and
    the keyword recommendation says 10, not 13. *)
Lemma C9_counterexample :
  ~ reportsFullMissingCount toLowerCaseRu resume_cv vacancy_many.
Proof.
  intros (_ & _ & H). apply keywordsDescription_10_13.
  pose proof (H _ vacancy_many_recommendation (rec_keywords_title _)) as H'.
  rewrite rec_keywords_description in H'.
  exact (eq_trans
           (eq_sym (f_equal keywordsDescription vacancy_many_reported))
           (eq_trans H'
              (f_equal keywordsDescription vacancy_many_full_missing))).
Qed.

(** The amended statement at the same input: the recommendation that is
    emitted states min(10, 13). *)
Lemma C9_missing_report_witness :
  description
    (rec_keywords
       (missingKeywords (analyzeResume toLowerCaseRu resume_cv vacancy_many)))
  = keywordsDescription
      (Nat.min 10 (length (fullMissing toLowerCaseRu resume_cv vacancy_many))).
Proof.
  exact (proj2 (proj2 (C9_missing_report toLowerCaseRu resume_cv vacancy_many))
           _ vacancy_many_recommendation (rec_keywords_title _)).
Defined.

Example missing_13_reported_10 :
  length (fullMissing toLowerCaseRu resume_cv vacancy_many) = 13
  /\ length (missingKeywords
               (analyzeResume toLowerCaseRu resume_cv vacancy_many)) = 10
  /\ keywordsDescription 10 =
     utf16 "Ваше резюме не содержит 10 важных ключевых слов. ATS системы ищут точные совпадения.".
Proof. vm_compute. repeat split. Qed.

(** * Further properties of the analyzer *)

(** ** The shape of the recommendation list *)

Section RuleLengths.

Variables (bd : Breakdown) (resume : ParsedResume).

Lemma rule_keywords_length (mk : list jsstring) (recs : list Recommendation) :
  length recs <= length (rule_keywords bd mk recs) <= S (length recs).
Proof.
  unfold rule_keywords.
  destruct (b_keywords bd <? 70)%Z; [|lia].
  destruct (Nat.ltb 0 (length mk)); [|lia].
  rewrite length_app. cbn [length]. lia.
Qed.

Lemma rule_structure_length (recs : list Recommendation) :
  length recs <= length (rule_structure bd resume recs) <= S (length recs).
Proof.
  unfold rule_structure.
  destruct (b_structure bd <? 70)%Z; [|lia].
  destruct (Nat.ltb 0 _); [|lia].
  rewrite length_app. cbn [length]. lia.
Qed.

Lemma rule_contacts_length (recs : list Recommendation) :
  length recs <= length (rule_contacts bd resume recs) <= S (length recs).
Proof.
  unfold rule_contacts.
  destruct (b_contacts bd <? 80)%Z; [|lia].
  destruct (Nat.ltb 0 _); [|lia].
  rewrite length_app. cbn [length]. lia.
Qed.

Lemma rule_experience_length (recs : list Recommendation) :
  length recs <= length (rule_experience bd resume recs) <= S (length recs).
Proof.
  unfold rule_experience.
  destruct (b_experience bd <? 60)%Z; [|lia].
  destruct (negb (truthy (experienceText resume)));
    [|destruct (Nat.ltb _ 100); [|lia]];
    rewrite length_app; cbn [length]; lia.
Qed.

Lemma rule_general_length (recs : list Recommendation) :
  length (rule_general recs) = Nat.max 1 (length recs).
Proof.
  unfold rule_general. destruct recs as [|x recs]; reflexivity.
Qed.

End RuleLengths.

Lemma well_done_not_a_rule (bd : Breakdown) (resume : ParsedResume)
    (mk : list jsstring) :
  ~ In rec_well_done
      (rule_experience bd resume
         (rule_contacts bd resume
            (rule_structure bd resume (rule_keywords bd mk [])))).
Proof.
  intro H.
  apply rule_experience_In in H as [H|[H|H]];
    [|apply (f_equal title) in H; revert H; distinct_titles ..].
  apply rule_contacts_In in H as [H|[mc H]];
    [|apply (f_equal title) in H; revert H; distinct_titles].
  apply rule_structure_In in H as [H|[ms H]];
    [|apply (f_equal title) in H; revert H; distinct_titles].
  apply rule_keywords_In in H as [[]|H].
  apply (f_equal title) in H; revert H; distinct_titles.
Qed.

(** X1.  Whatever its arguments, [generateRecommendations] returns between
    one and four recommendations, and the closing affirmation, when
    present, is the only one. *)
Theorem recommendations_shape :
  forall (bd : Breakdown) (resume : ParsedResume)
         (requirements : VacancyRequirements)
         (matched missing : list jsstring),
    let recs :=
      generateRecommendations bd resume requirements matched missing in
    1 <= length recs <= 4
    /\ (In rec_well_done recs -> recs = [rec_well_done]).
Proof.
  intros bd resume requirements matched missing recs. subst recs.
  unfold generateRecommendations.
  set (r1 := rule_keywords bd missing []).
  set (r2 := rule_structure bd resume r1).
  set (r3 := rule_contacts bd resume r2).
  set (r4 := rule_experience bd resume r3).
  split.
  - rewrite rule_general_length.
    pose proof (rule_keywords_length bd missing []) as H1.
    pose proof (rule_structure_length bd resume r1) as H2.
    pose proof (rule_contacts_length bd resume r2) as H3.
    pose proof (rule_experience_length bd resume r3) as H4.
    fold r1 in H1. fold r2 in H2. fold r3 in H3. fold r4 in H4.
    cbn [length] in H1. lia.
  - intro H. unfold rule_general in *.
    destruct r4 as [|x rest] eqn:E; [reflexivity|].
    exfalso. cbn [length Nat.eqb] in H.
    apply (well_done_not_a_rule bd resume missing).
    fold r1 r2 r3 r4. rewrite E. exact H.
Qed.

(** ** Contacts and experience scores *)

(** X2.  The contacts score is 40 for an e-mail plus 40 for a telephone
    plus 20 for a name (the clamp to 100 never applies), and it is 100
    exactly when all three were extracted. *)
Theorem analyzeContacts_additive :
  forall resume : ParsedResume,
    let points (found : option jsstring) (p : Z) :=
      if truthy_opt found then p else 0%Z in
    analyzeContacts resume
    = (points (email resume) 40 + points (phone resume) 40
       + points (name resume) 20)%Z
    /\ (analyzeContacts resume = 100%Z <->
        truthy_opt (email resume) = true
        /\ truthy_opt (phone resume) = true
        /\ truthy_opt (name resume) = true).
Proof.
  intro resume. cbv zeta. unfold analyzeContacts.
  destruct (truthy_opt (email resume)), (truthy_opt (phone resume)),
    (truthy_opt (name resume));
    (split; [reflexivity|]); split; try (intro H; discriminate H);
    try tauto; intros (H1 & H2 & H3); discriminate.
Qed.

(** X3.  For any parsed résumé the experience score is 0 exactly when the
    experience text is empty; otherwise it lies between 40 and 100. *)
Theorem analyzeExperience_range :
  forall (toLowerCase : jsstring -> jsstring) (resume : ParsedResume)
         (requirements : VacancyRequirements),
    let s := analyzeExperience toLowerCase resume requirements in
    (s = 0%Z <-> experienceText resume = [])
    /\ (s = 0 \/ 40 <= s <= 100)%Z.
Proof.
  intros toLowerCase resume requirements s. subst s.
  unfold analyzeExperience.
  destruct (experienceText resume) as [|c rest] eqn:E; cbn [truthy negb].
  - split; [tauto | now left].
  - split.
    + split; [|discriminate].
      destruct (Nat.ltb 200 _); [|destruct (Nat.ltb 100 _);
                                    [|destruct (Nat.ltb 50 _)]];
        destruct (Nat.ltb 0 _); lia.
    + right.
      destruct (Nat.ltb 200 _); [|destruct (Nat.ltb 100 _);
                                    [|destruct (Nat.ltb 50 _)]];
        destruct (Nat.ltb 0 _); lia.
Qed.

(** X4.  [analyzeResume] never reports a position: [split(':', 1)] keeps a
    single part, so the guarded return of [extractPosition] is dead. *)
Theorem position_never_reported :
  forall (toLowerCase : jsstring -> jsstring) (resumeText vacancyText : jsstring),
    position (parsedResume (analyzeResume toLowerCase resumeText vacancyText))
    = None.
Proof.
  intros. rewrite result_parsedResume. apply extractPosition_undefined.
Qed.

(** ** The keyword partition and its score *)

Lemma filter_split_length {A} (f : A -> bool) (l : list A) :
  length (filter f l) + length (filter (fun x => negb (f x)) l) = length l.
Proof.
  induction l as [|x l IH]; simpl; [reflexivity|].
  destruct (f x); simpl; lia.
Qed.

Lemma matchedKeywords_filter (toLowerCase : jsstring -> jsstring)
    (resumeText vacancyText : jsstring) :
  matchedKeywords (analyzeResume toLowerCase resumeText vacancyText)
  = filter (occursIn toLowerCase (parseResume toLowerCase resumeText))
      (allRequirements (extractVacancyRequirements toLowerCase vacancyText)).
Proof.
  rewrite result_matchedKeywords, analyzeKeywords_eq. cbv zeta.
  destruct (allRequirements _) as [|r reqs]; reflexivity.
Qed.

(** X5.  The matched keywords and the missing partition split the
    requirement list: every requirement is in one of them, none is in both,
    and their lengths add up to the number of requirements. *)
Theorem keywords_partitioned :
  forall (toLowerCase : jsstring -> jsstring) (resumeText vacancyText : jsstring),
    let result := analyzeResume toLowerCase resumeText vacancyText in
    let all :=
      allRequirements (extractVacancyRequirements toLowerCase vacancyText) in
    let missing := fullMissing toLowerCase resumeText vacancyText in
    (forall r, In r all <-> In r (matchedKeywords result) \/ In r missing)
    /\ (forall r, ~ (In r (matchedKeywords result) /\ In r missing))
    /\ length (matchedKeywords result) + length missing = length all.
Proof.
  intros toLowerCase resumeText vacancyText result all missing.
  subst result all missing.
  rewrite matchedKeywords_filter. unfold fullMissing.
  split; [|split].
  - intro r. rewrite !filter_In.
    destruct (occursIn toLowerCase (parseResume toLowerCase resumeText) r);
      cbn [negb]; intuition congruence.
  - intros r [H1 H2]. rewrite filter_In in H1, H2.
    destruct H1 as [_ H1], H2 as [_ H2]. rewrite H1 in H2. discriminate.
  - apply filter_split_length.
Qed.

Lemma keywordScore_steps_check :
  forallb keywordScore_steps_ok (seq 1 81) = true.
Proof. vm_compute. reflexivity. Qed.

Lemma keywordScore_steps (n : nat) :
  1 <= n <= 81 ->
  (forall m, m < n ->
     (keywordScore m n <= keywordScore (S m) n)%Z
     /\ keywordScore m n <> 100%Z)
  /\ keywordScore n n = 100%Z /\ keywordScore 0 n = 0%Z.
Proof.
  intro Hn. pose proof keywordScore_steps_check as H.
  rewrite forallb_forall in H.
  specialize (H n ltac:(apply in_seq; lia)).
  unfold keywordScore_steps_ok in H.
  apply andb_true_iff in H as [H H0]. apply andb_true_iff in H as [H Hfull].
  rewrite forallb_forall in H.
  split; [|split; apply Z.eqb_eq; assumption].
  intros m Hm. specialize (H m ltac:(apply in_seq; lia)).
  apply andb_true_iff in H as [Hle Hne].
  split; [now apply Z.leb_le|].
  apply negb_true_iff in Hne. now apply Z.eqb_neq.
Qed.

(** X6.  For a requirement list of at most 81 entries (the most a vacancy
    can yield) the keyword score, as computed in binary64, never decreases
    when more requirements match. *)
Theorem keywordScore_monotone :
  forall m m' n : nat,
    m <= m' -> m' <= n -> 1 <= n <= 81 ->
    (keywordScore m n <= keywordScore m' n)%Z.
Proof.
  intros m m' n Hm Hm' Hn.
  induction Hm as [|m' Hm IH]; [lia|].
  destruct (keywordScore_steps n Hn) as [Hstep _].
  specialize (Hstep m' ltac:(lia)). specialize (IH ltac:(lia)). lia.
Qed.

Lemma keywordScore_monotone_witness :
  (keywordScore 22 40 <= keywordScore 23 40)%Z.
Proof. apply keywordScore_monotone; lia. Defined.

(** X7.  For every pair of inputs the keyword score is 100 exactly when no
    requirement is missing, and it is 0 when there are requirements and none
    of them is matched. *)
Theorem keywords_score_extremes :
  forall (toLowerCase : jsstring -> jsstring) (resumeText vacancyText : jsstring),
    let result := analyzeResume toLowerCase resumeText vacancyText in
    let all :=
      allRequirements (extractVacancyRequirements toLowerCase vacancyText) in
    (b_keywords (breakdown result) = 100%Z <->
     fullMissing toLowerCase resumeText vacancyText = [])
    /\ (all <> [] -> matchedKeywords result = [] ->
        b_keywords (breakdown result) = 0%Z).
Proof.
  intros toLowerCase resumeText vacancyText result all. subst result all.
  rewrite matchedKeywords_filter, result_breakdown. cbn [b_keywords].
  rewrite analyzeKeywords_eq. cbv zeta. unfold fullMissing.
  pose proof (allRequirements_length toLowerCase vacancyText) as Hlen.
  set (resume := parseResume toLowerCase resumeText) in *.
  destruct (allRequirements _) as [|r reqs] eqn:E; cbn [fst].
  - split; [tauto|congruence].
  - set (all := r :: reqs) in *.
    pose proof (filter_split_length (occursIn toLowerCase resume) all) as Hs.
    assert (Hn : 1 <= length all <= 81).
    { unfold all in Hlen |- *. cbn [length] in Hlen |- *. lia. }
    destruct (keywordScore_steps (length all) Hn) as (Hstep & Hfull & Hzero).
    split; [split|].
    + intro H100.
      destruct (Nat.eq_dec
                  (length (filter (occursIn toLowerCase resume) all))
                  (length all)) as [Heq|Hneq].
      * apply length_zero_iff_nil. lia.
      * exfalso.
        assert (Hlt : length (filter (occursIn toLowerCase resume) all)
                      < length all) by lia.
        exact (proj2 (Hstep _ Hlt) H100).
    + intro Hnil. rewrite Hnil in Hs. cbn [length] in Hs.
      rewrite Nat.add_0_r in Hs. rewrite Hs. exact Hfull.
    + intros _ Hnone. rewrite Hnone. exact Hzero.
Qed.

Lemma keywords_score_extremes_witness :
  b_keywords (breakdown (analyzeResume toLowerCaseRu resume_cv vacancy_many))
  = 0%Z.
Proof.
  apply (proj2 (keywords_score_extremes toLowerCaseRu resume_cv vacancy_many)).
  - vm_compute. discriminate.
  - vm_compute. reflexivity.
Defined.

(** ** The ceiling of the overall score *)

Lemma analyzeStructure_one_line (toLowerCase : jsstring -> jsstring)
    (text : jsstring) :
  In (analyzeStructure (parseResume toLowerCase text)) structureValuesOneLine.
Proof.
  rewrite structureScore_eq.
  change (rawText (parseResume toLowerCase text)) with (normalizeText text).
  rewrite normalizeText_one_line. cbn [length Nat.ltb Nat.leb].
  pose proof (filter_length_le
                (sections_includes (sections (parseResume toLowerCase text)))
                expectedSections) as Hf.
  change (length expectedSections) with 3 in Hf.
  destruct (length (filter _ expectedSections)) as [|[|[|[|n]]]];
    [| | | |lia];
    destruct (sections_includes _ contacts); vm_compute; tauto.
Qed.

Lemma totalScoreCap_check :
  forallb totalScoreCap_ok (map Z.of_nat (seq 0 101)) = true.
Proof. vm_compute. reflexivity. Qed.

Lemma totalScore_cap (k s c : Z) :
  (0 <= k <= 100)%Z -> In s structureValuesOneLine -> In c contactsValues ->
  (s <= 85)%Z /\ (totalScore (mkBreakdown k s c 0) <= 81)%Z.
Proof.
  intros Hk Hs Hc. split.
  - assert (Hall : forallb (fun z => (z <=? 85)%Z) structureValuesOneLine
                   = true) by (vm_compute; reflexivity).
    rewrite forallb_forall in Hall. apply Z.leb_le. apply Hall. exact Hs.
  - pose proof totalScoreCap_check as H. rewrite forallb_forall in H.
    assert (Hin : In k (map Z.of_nat (seq 0 101))).
    { replace k with (Z.of_nat (Z.to_nat k)) by lia.
      apply in_map. apply in_seq. lia. }
    specialize (H k Hin). unfold totalScoreCap_ok in H.
    rewrite forallb_forall in H. specialize (H s Hs).
    rewrite forallb_forall in H. specialize (H c Hc).
    apply Z.leb_le. exact H.
Qed.

(** X8.  For every pair of inputs the structure score is at most 85 and
    the overall score at most 81: the normalized text is a single line, so
    the line-count bonus never applies, and the experience score is 0. *)
Theorem score_ceiling :
  forall (toLowerCase : jsstring -> jsstring) (resumeText vacancyText : jsstring),
    let result := analyzeResume toLowerCase resumeText vacancyText in
    (b_structure (breakdown result) <= 85)%Z /\ (score result <= 81)%Z.
Proof.
  intros toLowerCase resumeText vacancyText result. subst result.
  rewrite result_score, result_breakdown. cbn [b_structure].
  rewrite analyzeExperience_parsed.
  apply totalScore_cap.
  - apply analyzeKeywords_bounds.
  - apply analyzeStructure_one_line.
  - apply analyzeContacts_values.
Qed.

(** ** Sections and skills found in the résumé *)

Lemma sectionType_eqb_eq (a b : sectionType) :
  sectionType_eqb a b = true <-> a = b.
Proof. destruct a, b; simpl; split; congruence. Qed.

(** [Array.from(new Set(l))] leaves a list without repetition as it is. *)
Lemma dedupe_acc_distinct {A} (eqb : A -> A -> bool)
    (eqb_eq : forall a b, eqb a b = true <-> a = b) (l : list A) :
  forall seen,
    NoDup l -> (forall x, In x l -> ~ In x seen) ->
    dedupe_acc eqb seen l = l.
Proof.
  induction l as [|x l IH]; intros seen Hnd Hseen; simpl; [reflexivity|].
  inversion Hnd as [|? ? Hx Hnd']; subst.
  destruct (existsb (eqb x) seen) eqn:E.
  - apply existsb_exists in E as (y & Hy & Hxy).
    apply eqb_eq in Hxy. subst y. exfalso.
    apply (Hseen x); [now left | exact Hy].
  - f_equal. apply IH; [exact Hnd'|].
    intros y Hy [<-|Hin]; [exact (Hx Hy)|].
    apply (Hseen y); [now right | exact Hin].
Qed.

Lemma dedupe_distinct {A} (eqb : A -> A -> bool)
    (eqb_eq : forall a b, eqb a b = true <-> a = b) (l : list A) :
  NoDup l -> dedupe eqb l = l.
Proof.
  intro H. unfold dedupe. apply dedupe_acc_distinct; auto.
Qed.

Lemma distinctb_NoDup (l : list jsstring) : distinctb l = true -> NoDup l.
Proof.
  induction l as [|x l IH]; simpl; intro H; constructor;
    apply andb_true_iff in H as [Hx Hl].
  - intro Hin. apply negb_true_iff in Hx.
    assert (arr_includes l x = true); [|congruence].
    apply existsb_exists. exists x. split; [exact Hin|].
    now apply str_eqb_eq.
  - now apply IH.
Qed.

Lemma sectionTypes_NoDup : NoDup sectionTypes.
Proof.
  unfold sectionTypes.
  repeat constructor; simpl; intuition discriminate.
Qed.

Lemma vocabulary_NoDup : NoDup (itSkills ++ softSkills).
Proof. apply distinctb_NoDup. vm_compute. reflexivity. Qed.

(** X9.  The detected sections are the section keys, in declaration
    order, of which some keyword occurs in the lower-cased text; no key is
    listed twice. *)
Theorem detectSections_spec :
  forall (toLowerCase : jsstring -> jsstring) (text : jsstring),
    detectSections toLowerCase text
    = filter (fun t => existsb (includes (toLowerCase text))
                         (standardSections t))
        sectionTypes
    /\ NoDup (detectSections toLowerCase text)
    /\ (forall t,
          In t (detectSections toLowerCase text) <->
          exists keyword,
            In keyword (standardSections t)
            /\ includes (toLowerCase text) keyword = true).
Proof.
  intros toLowerCase text.
  assert (Heq : detectSections toLowerCase text
                = filter (fun t => existsb (includes (toLowerCase text))
                                     (standardSections t))
                    sectionTypes).
  { unfold detectSections. apply dedupe_distinct.
    - exact sectionType_eqb_eq.
    - apply NoDup_filter, sectionTypes_NoDup. }
  split; [exact Heq|]. rewrite Heq. split.
  - apply NoDup_filter, sectionTypes_NoDup.
  - intro t. rewrite filter_In, existsb_exists. split.
    + intros [_ H]. exact H.
    + intro H. split; [|exact H]. destruct t; simpl; tauto.
Qed.

(** X10.  The skills found are the vocabulary terms (technical first, then
    soft, each in table order) whose lower-cased form occurs in the
    lower-cased text; no term is listed twice. *)
Theorem extractSkills_spec :
  forall (toLowerCase : jsstring -> jsstring) (text : jsstring),
    extractSkills toLowerCase text
    = filter (fun skill => includes (toLowerCase text) (toLowerCase skill))
        (itSkills ++ softSkills)
    /\ NoDup (extractSkills toLowerCase text).
Proof.
  intros toLowerCase text.
  assert (Hnd : NoDup (filter (fun skill => includes (toLowerCase text)
                                               (toLowerCase skill))
                         (itSkills ++ softSkills)))
    by apply NoDup_filter, vocabulary_NoDup.
  assert (Heq : extractSkills toLowerCase text
                = filter (fun skill => includes (toLowerCase text)
                                          (toLowerCase skill))
                    (itSkills ++ softSkills)).
  { unfold extractSkills. cbv zeta. rewrite <- filter_app.
    apply dedupe_distinct; [exact str_eqb_eq | exact Hnd]. }
  split; [exact Heq | rewrite Heq; exact Hnd].
Qed.

(** ** The normalizer *)

(** The greedy loop of [\s+] stops at the first code unit that is not white
    space, when its fuel covers the input ahead. *)
Lemma ws_loop_exact (fuel : nat) :
  forall s, length (after s) <= fuel ->
    exists e,
      rep_loop (run (Char ws_class)) (S fuel) 0 None Some s = Some e
      /\ after e = trimStart (after s).
Proof.
  induction fuel as [|fuel IH]; intros [bef aft cps] Hlen;
    rewrite rep_loop_unfold, run_char; cbn [option_map after before caps] in *.
  - destruct aft as [|c rest]; [|simpl in Hlen; lia].
    exists (mkState bef [] cps). auto.
  - destruct aft as [|c rest].
    + exists (mkState bef [] cps). auto.
    + cbn [trimStart]. rewrite <- ws_class_isWhiteSpace.
      destruct (cset_mem ws_class c).
      * replace (Nat.ltb (length rest) (length (c :: rest))) with true
          by (symmetry; apply Nat.ltb_lt; simpl; lia).
        destruct (IH (mkState (c :: bef) rest cps)) as (e & He & Ha).
        { simpl in *. lia. }
        exists e. rewrite He. split; [reflexivity | exact Ha].
      * exists (mkState bef (c :: rest) cps). auto.
Qed.

Lemma match_here_whitespace_exact (bef : jsstring) (c : char16)
    (t : jsstring) :
  isWhiteSpace c = true ->
  exists e, match_here re_whitespace bef (c :: t) = Some e
            /\ after e = trimStart t.
Proof.
  intro Hc. unfold match_here, re_whitespace, plus.
  change (run (Repeat 1 None (Char ws_class)) Some (mkState bef (c :: t) []))
    with (rep_loop (run (Char ws_class)) (S (S (S (length t)))) 1 None Some
            (mkState bef (c :: t) [])).
  rewrite rep_loop_unfold, run_char. cbn [option_map after before caps].
  rewrite ws_class_isWhiteSpace, Hc.
  destruct (ws_loop_exact (S (length t)) (mkState (c :: bef) t []))
    as (e & He & Ha); [simpl; lia|].
  exists e. split; [exact He | exact Ha].
Qed.

Lemma trimStart_length (s : jsstring) : length (trimStart s) <= length s.
Proof.
  induction s as [|c s IH]; simpl; [lia|].
  destruct (isWhiteSpace c); simpl; lia.
Qed.

(** Skipping the rest of a white-space run resumes the scan at its end. *)
Lemma scan_skip_run (r : regex) (t : jsstring) :
  forall bef, exists bef',
    scan r bef t (length t - length (trimStart t))
    = scan r bef' (trimStart t) 0.
Proof.
  induction t as [|c t IH]; intro bef.
  - exists bef. reflexivity.
  - cbn [trimStart]. destruct (isWhiteSpace c) eqn:Hc.
    + pose proof (trimStart_length t) as Hl.
      replace (length (c :: t) - length (trimStart t))
        with (S (length t - length (trimStart t))) by (cbn [length]; lia).
      cbn [scan]. apply IH.
    + exists bef. now rewrite Nat.sub_diag.
Qed.

Lemma collapseSpaces_in_run (t : jsstring) :
  collapseSpaces true t = collapseSpaces false (trimStart t).
Proof.
  induction t as [|c t IH]; [reflexivity|].
  cbn [collapseSpaces trimStart].
  destruct (isWhiteSpace c) eqn:Hc; [exact IH|].
  cbn [collapseSpaces]. now rewrite Hc.
Qed.

Lemma scan_whitespace_collapse (n : nat) :
  forall aft bef, length aft <= n ->
    replaced (scan re_whitespace bef aft 0) = collapseSpaces false aft.
Proof.
  induction n as [|n IH]; intros aft bef Hlen.
  - destruct aft; [reflexivity | simpl in Hlen; lia].
  - destruct aft as [|c t]; [reflexivity|].
    cbn [scan collapseSpaces].
    destruct (isWhiteSpace c) eqn:Hc.
    + destruct (match_here_whitespace_exact bef c t Hc) as (e & He & Ha).
      rewrite He, Ha.
      pose proof (trimStart_length t) as Hl.
      replace (length (c :: t) - length (trimStart t))
        with (S (length t - length (trimStart t))) by (cbn [length]; lia).
      destruct (scan_skip_run re_whitespace t (c :: bef)) as (bef' & Hs).
      rewrite Hs. unfold replaced at 1. cbn [flat_map].
      change (utf16 " ") with [32%N]. cbn [app]. f_equal.
      fold (replaced (scan re_whitespace bef' (trimStart t) 0)).
      rewrite IH by (simpl in Hlen; lia).
      symmetry. apply collapseSpaces_in_run.
    + pose proof (match_here_whitespace bef c t) as Hm.
      rewrite ws_class_isWhiteSpace, Hc in Hm. rewrite Hm.
      unfold replaced at 1. cbn [flat_map app]. f_equal.
      apply IH. simpl in Hlen. lia.
Qed.

Lemma replace_whitespace_collapse (text : jsstring) :
  String_replace_all re_whitespace (utf16 " ") text
  = collapseSpaces false text.
Proof. apply (scan_whitespace_collapse (length text)). lia. Qed.

Lemma normalizeText_trim_collapse (text : jsstring) :
  normalizeText text = trim (collapseSpaces false text).
Proof. unfold normalizeText. now rewrite replace_whitespace_collapse. Qed.

(** X11.  [text.replace(/\s+/g, ' ').trim()] is the text with every maximal
    run of white space collapsed to one space, then trimmed: the regular
    expression scan agrees with the direct traversal [collapseSpaces]. *)
Theorem normalizeText_collapses_runs :
  forall text : jsstring,
    String_replace_all re_whitespace (utf16 " ") text
    = collapseSpaces false text
    /\ normalizeText text = trim (collapseSpaces false text).
Proof.
  intro text. split.
  - apply replace_whitespace_collapse.
  - apply normalizeText_trim_collapse.
Qed.

Lemma collapseSpaces_singleSpaced (s : jsstring) :
  forall p, singleSpaced p (collapseSpaces p s) = true.
Proof.
  induction s as [|c s IH]; intro p; [reflexivity|].
  cbn [collapseSpaces]. destruct (isWhiteSpace c) eqn:Hc.
  - destruct p; [apply IH|].
    cbn [singleSpaced].
    change (isWhiteSpace 32%N) with true. cbn [negb andb N.eqb Pos.eqb].
    apply IH.
  - cbn [singleSpaced]. rewrite Hc. apply IH.
Qed.

Lemma singleSpaced_fixed (s : jsstring) :
  forall p, singleSpaced p s = true -> collapseSpaces p s = s.
Proof.
  induction s as [|c s IH]; intros p H; [reflexivity|].
  cbn [singleSpaced collapseSpaces] in *.
  destruct (isWhiteSpace c).
  - apply andb_true_iff in H as [H Hs]. apply andb_true_iff in H as [Hc Hp].
    apply N.eqb_eq in Hc. apply negb_true_iff in Hp. subst.
    f_equal. now apply IH.
  - f_equal. now apply IH.
Qed.

Lemma singleSpaced_weaken (s : jsstring) (p : bool) :
  singleSpaced p s = true -> singleSpaced false s = true.
Proof.
  destruct s as [|c s]; [reflexivity|]. cbn [singleSpaced].
  destruct (isWhiteSpace c); [|auto].
  intro H. apply andb_true_iff in H as [H Hs].
  apply andb_true_iff in H as [Hc _]. now rewrite Hc, Hs.
Qed.

Lemma singleSpaced_trimStart (s : jsstring) :
  forall p, singleSpaced p s = true -> singleSpaced false (trimStart s) = true.
Proof.
  induction s as [|c s IH]; intros p H; [reflexivity|].
  cbn [trimStart]. cbn [singleSpaced] in H.
  destruct (isWhiteSpace c) eqn:Hc.
  - apply andb_true_iff in H as [_ Hs]. now apply (IH true).
  - cbn [singleSpaced]. now rewrite Hc.
Qed.

Lemma singleSpaced_prefix (a b : jsstring) :
  forall p, singleSpaced p (a ++ b) = true -> singleSpaced p a = true.
Proof.
  induction a as [|c a IH]; intros p H; [reflexivity|].
  cbn [app singleSpaced] in *.
  destruct (isWhiteSpace c); [|now apply IH].
  apply andb_true_iff in H as [H Hs]. rewrite H. now apply IH.
Qed.

(** What [trimStart] removes is white space, and what it leaves does not
    begin with white space. *)
Lemma trimStart_split (s : jsstring) :
  exists pre,
    s = pre ++ trimStart s
    /\ forallb isWhiteSpace pre = true
    /\ match trimStart s with
       | [] => True
       | c :: _ => isWhiteSpace c = false
       end.
Proof.
  induction s as [|c s (pre & Hs & Hpre & Hhd)].
  - exists []. repeat split.
  - cbn [trimStart]. destruct (isWhiteSpace c) eqn:Hc.
    + exists (c :: pre). cbn [app forallb]. rewrite Hc, Hpre.
      split; [now f_equal | split; [reflexivity | exact Hhd]].
    + exists []. repeat split. exact Hc.
Qed.

Lemma trimStart_fixed (s : jsstring) :
  match s with [] => True | c :: _ => isWhiteSpace c = false end ->
  trimStart s = s.
Proof. destruct s as [|c s]; [reflexivity|]. simpl. now intros ->. Qed.

Lemma trimStart_idempotent (s : jsstring) :
  trimStart (trimStart s) = trimStart s.
Proof.
  apply trimStart_fixed. now destruct (trimStart_split s) as (_ & _ & _ & H).
Qed.

(** [trimEnd] keeps a prefix. *)
Lemma trimEnd_prefix (s : jsstring) : exists suffix, s = trimEnd s ++ suffix.
Proof.
  unfold trimEnd. destruct (trimStart_split (rev s)) as (pre & Hs & _).
  exists (rev pre). rewrite <- rev_app_distr, <- Hs. now rewrite rev_involutive.
Qed.

Lemma trim_idempotent (s : jsstring) : trim (trim s) = trim s.
Proof.
  unfold trim. set (a := trimStart s).
  assert (Hstart : trimStart (trimEnd a) = trimEnd a).
  { apply trimStart_fixed.
    destruct (trimEnd_prefix a) as (suffix & Ha).
    destruct (trimStart_split s) as (_ & _ & _ & Hhd). fold a in Hhd.
    destruct (trimEnd a) as [|c b]; [exact I|].
    rewrite Ha in Hhd. exact Hhd. }
  rewrite Hstart. unfold trimEnd.
  rewrite rev_involutive. now rewrite trimStart_idempotent.
Qed.

Lemma singleSpaced_trim (s : jsstring) (p : bool) :
  singleSpaced p s = true -> singleSpaced false (trim s) = true.
Proof.
  intro H. unfold trim.
  apply singleSpaced_trimStart in H.
  destruct (trimEnd_prefix (trimStart s)) as (suffix & Hs).
  rewrite Hs in H. now apply singleSpaced_prefix in H.
Qed.

Lemma normalizeText_singleSpaced (text : jsstring) :
  singleSpaced false (normalizeText text) = true.
Proof.
  rewrite normalizeText_trim_collapse.
  apply (singleSpaced_trim _ false), collapseSpaces_singleSpaced.
Qed.

Lemma singleSpaced_adjacent (pre : jsstring) (c d : char16)
    (post : jsstring) :
  forall p,
    singleSpaced p (pre ++ c :: d :: post) = true ->
    isWhiteSpace c = true -> isWhiteSpace d = false.
Proof.
  induction pre as [|x pre IH]; intros p H Hc.
  - cbn [app singleSpaced] in H. rewrite Hc in H.
    apply andb_true_iff in H as [_ H].
    destruct (isWhiteSpace d); [|reflexivity].
    apply andb_true_iff in H as [H _]. apply andb_true_iff in H as [_ H].
    discriminate H.
  - cbn [app singleSpaced] in H. destruct (isWhiteSpace x).
    + apply andb_true_iff in H as [_ H]. now apply (IH true).
    + now apply (IH false).
Qed.

Lemma singleSpaced_space (s : jsstring) (c : char16) :
  forall p, singleSpaced p s = true -> In c s ->
            isWhiteSpace c = true -> c = 32%N.
Proof.
  induction s as [|x s IH]; intros p H Hin Hc; [destruct Hin|].
  cbn [singleSpaced] in H. destruct Hin as [->|Hin].
  - rewrite Hc in H. apply andb_true_iff in H as [H _].
    apply andb_true_iff in H as [H _]. now apply N.eqb_eq.
  - destruct (isWhiteSpace x).
    + apply andb_true_iff in H as [_ H]. now apply (IH true).
    + now apply (IH false).
Qed.

(** X12.  In the normalized text every white-space code unit is a U+0020,
    no two white-space code units are adjacent, and the text neither begins
    nor ends with white space (trimming it again changes nothing). *)
Theorem normalizeText_single_spaces :
  forall text : jsstring,
    (forall c, In c (normalizeText text) -> isWhiteSpace c = true ->
               c = 32%N)
    /\ (forall pre c d post,
          normalizeText text = pre ++ c :: d :: post ->
          isWhiteSpace c = true -> isWhiteSpace d = false)
    /\ trim (normalizeText text) = normalizeText text.
Proof.
  intro text. pose proof (normalizeText_singleSpaced text) as H.
  split; [|split].
  - intros c Hin Hc. exact (singleSpaced_space _ c false H Hin Hc).
  - intros pre c d post Heq Hc. rewrite Heq in H.
    exact (singleSpaced_adjacent pre c d post false H Hc).
  - rewrite normalizeText_trim_collapse. apply trim_idempotent.
Qed.

(** X13.  Normalizing is idempotent. *)
Theorem normalizeText_idempotent :
  forall text : jsstring,
    normalizeText (normalizeText text) = normalizeText text.
Proof.
  intro text.
  rewrite (normalizeText_trim_collapse (normalizeText text)).
  rewrite (singleSpaced_fixed _ false (normalizeText_singleSpaced text)).
  rewrite normalizeText_trim_collapse. apply trim_idempotent.
Qed.

(** ** What the contact extractors return *)

(** A matcher that succeeds has called its continuation on some state. *)
Lemma rep_loop_reaches (atom : matcher) :
  (forall k s e, atom k s = Some e -> exists s', k s' = Some e) ->
  forall fuel mn mx k s e,
    rep_loop atom fuel mn mx k s = Some e -> exists s', k s' = Some e.
Proof.
  intros Hatom fuel.
  induction fuel as [|fuel IH]; intros mn mx k s e H; [discriminate|].
  rewrite rep_loop_unfold in H.
  assert (Hstep :
    match mn with
    | S mn' =>
        atom (fun s' => rep_loop atom fuel mn' (option_map Nat.pred mx) k s') s
    | O =>
        match
          atom (fun s' =>
                  if Nat.ltb (length (after s')) (length (after s))
                  then rep_loop atom fuel 0 (option_map Nat.pred mx) k s'
                  else None) s
        with
        | Some e => Some e
        | None => k s
        end
    end = Some e -> exists s', k s' = Some e).
  { destruct mn as [|mn'].
    - destruct (atom _ s) as [e'|] eqn:E.
      + intros [= ->]. apply Hatom in E as (s' & Hs').
        destruct (Nat.ltb _ _); [|discriminate]. eapply IH; eauto.
      + eauto.
    - intro E. apply Hatom in E as (s' & Hs'). eapply IH; eauto. }
  destruct mx as [[|n]|]; eauto.
Qed.

Lemma run_reaches (r : regex) :
  forall k s e, run r k s = Some e -> exists s', k s' = Some e.
Proof.
  induction r as [|cls|a IHa b IHb|a IHa b IHb|mn mx a IHa|i a IHa| | |];
    intros k s e H; cbn [run] in H.
  - eauto.
  - destruct (after s) as [|c rest]; [discriminate|].
    destruct (cset_mem cls c); [eauto|discriminate].
  - apply IHa in H as (s1 & H1). eapply IHb; eauto.
  - destruct (run a k s) as [e'|] eqn:E.
    + injection H as ->. eapply IHa; eauto.
    + eapply IHb; eauto.
  - eapply rep_loop_reaches; eauto.
  - apply IHa in H as (s1 & H1). eauto.
  - destruct (before s); [eauto|discriminate].
  - destruct (after s); [eauto|discriminate].
  - destruct (xorb _ _); [eauto|discriminate].
Qed.

Lemma run_cat (a b : regex) (k : cont) (s : rstate) :
  run (Cat a b) k s = run a (fun s' => run b k s') s.
Proof. reflexivity. Qed.

Lemma run_bol (k : cont) (s : rstate) :
  run Bol k s = match before s with [] => k s | _ :: _ => None end.
Proof. reflexivity. Qed.

Lemma run_group (i : nat) (a : regex) (k : cont) (s : rstate) :
  run (Group i a) k s =
  run a (fun s' =>
           k (mkState (before s') (after s')
                ((i, firstn (length (after s) - length (after s')) (after s))
                   :: caps s'))) s.
Proof. reflexivity. Qed.

Lemma run_space_or_end (s e : rstate) :
  run (Or (Char ws_class) Eol) Some s = Some e -> caps e = caps s.
Proof.
  cbn [run]. destruct (after s) as [|c rest].
  - now intros [= <-].
  - destruct (cset_mem ws_class c); [|discriminate]. now intros [= <-].
Qed.

(** The name pattern is anchored: it matches at the start of the line only,
    and its group is a prefix of the line. *)
Lemma match_here_name (bef aft : jsstring) (e : rstate) :
  match_here re_name bef aft = Some e ->
  bef = [] /\ exists n, group 1 (caps e) = Some (firstn n aft).
Proof.
  unfold match_here, re_name. cbv zeta.
  rewrite run_cat, run_bol. cbn [before].
  destruct bef as [|b bef]; [|discriminate].
  rewrite run_cat, run_group. intro H. split; [reflexivity|].
  apply run_reaches in H as (s1 & H1).
  apply run_space_or_end in H1. cbn [after caps] in H1.
  exists (length aft - length (after s1)).
  rewrite H1. cbn [group Nat.eqb]. reflexivity.
Qed.

Lemma exec_from_name_anchored (aft : jsstring) :
  forall bef, bef <> [] -> exec_from re_name bef aft = None.
Proof.
  induction aft as [|c t IH]; intros bef Hb; cbn [exec_from];
    (destruct (match_here re_name bef _) as [e|] eqn:E;
     [apply match_here_name in E as [-> _]; congruence|]).
  - reflexivity.
  - apply IH. discriminate.
Qed.

Lemma String_match_name (line : jsstring) (m : match_result) :
  String_match re_name line = Some m ->
  exists n, group 1 (groups m) = Some (firstn n line).
Proof.
  unfold String_match. destruct line as [|c t]; cbn [exec_from];
    (destruct (match_here re_name [] _) as [e|] eqn:E;
     [intros [= <-]; cbn [groups];
      apply match_here_name in E as [_ H]; exact H|]).
  - discriminate.
  - rewrite exec_from_name_anchored by discriminate. discriminate.
Qed.

Lemma extractName_lines_prefix (lines : list jsstring) (nm : jsstring) :
  extractName_lines lines = Some nm ->
  exists line n, In line lines /\ nm = firstn n (trim line).
Proof.
  induction lines as [|line rest IH]; cbn [extractName_lines];
    [discriminate|].
  destruct (String_match re_name (trim line)) as [m|] eqn:E.
  - intro H. apply String_match_name in E as (n & Hn).
    rewrite Hn in H. injection H as <-.
    exists line, n. split; [now left | reflexivity].
  - intro H. apply IH in H as (l & n & Hl & Hn).
    exists l, n. split; [now right | exact Hn].
Qed.

(** The match returned by [exec] is a piece of the string searched. *)
Lemma exec_from_piece (r : regex) (aft : jsstring) :
  forall bef m, exec_from r bef aft = Some m ->
    exists pre post, aft = pre ++ matched m ++ post.
Proof.
  induction aft as [|c t IH]; intros bef m; cbn [exec_from];
    destruct (match_here r bef _) as [e|] eqn:E.
  - intros [= <-]. exists [], []. reflexivity.
  - discriminate.
  - intros [= <-]. cbn [matched]. exists [].
    eexists. cbn [app]. symmetry. apply firstn_skipn.
  - intro H. apply IH in H as (pre & post & ->).
    exists (c :: pre), post. reflexivity.
Qed.

Lemma extractPhone_patterns_piece (ps : list regex) (text p : jsstring) :
  extractPhone_patterns ps text = Some p ->
  exists pre post, text = pre ++ p ++ post.
Proof.
  induction ps as [|pattern ps IH]; cbn [extractPhone_patterns];
    [discriminate|].
  destruct (String_match pattern text) as [m|] eqn:E; [|exact IH].
  intros [= <-]. eapply exec_from_piece. exact E.
Qed.

(** X14.  Whatever [parseResume] reports as name, e-mail or telephone is
    read off the normalized text: the name is a prefix of it (the pattern is
    anchored and there is a single line), the e-mail and the telephone are
    contiguous pieces of it. *)
Theorem contacts_from_raw_text :
  forall (toLowerCase : jsstring -> jsstring) (text : jsstring),
    let resume := parseResume toLowerCase text in
    (forall nm, name resume = Some nm ->
       exists rest, rawText resume = nm ++ rest)
    /\ (forall e, email resume = Some e ->
          exists pre post, rawText resume = pre ++ e ++ post)
    /\ (forall p, phone resume = Some p ->
          exists pre post, rawText resume = pre ++ p ++ post).
Proof.
  intros toLowerCase text resume. subst resume.
  cbn [parseResume name email phone rawText].
  split; [|split].
  - intros nm H. unfold extractName in H.
    rewrite normalizeText_one_line in H. cbn [firstn] in H.
    apply extractName_lines_prefix in H as (line & n & [<-|[]] & ->).
    rewrite normalizeText_trim_collapse, trim_idempotent.
    eexists. symmetry. apply firstn_skipn.
  - intros e H. unfold extractEmail in H.
    destruct (String_match re_email (normalizeText text)) as [m|] eqn:E;
      [|discriminate].
    injection H as <-. eapply exec_from_piece. exact E.
  - intros p H. eapply extractPhone_patterns_piece. exact H.
Qed.

Lemma contacts_from_raw_text_witness :
  exists rest,
    rawText (parseResume toLowerCaseRu resume_ivan)
    = utf16 "Иван Иванов" ++ rest.
Proof.
  apply (proj1 (contacts_from_raw_text toLowerCaseRu resume_ivan)).
  vm_compute. reflexivity.
Defined.

(** X15.  [extractName] looks at the first five lines only, and a name it
    returns is a prefix of one of them, trimmed. *)
Theorem extractName_first_lines :
  forall (text nm : jsstring),
    extractName text = Some nm ->
    exists line n,
      In line (firstn 5 (split newline text)) /\ nm = firstn n (trim line).
Proof. intros text nm H. now apply extractName_lines_prefix. Qed.

Lemma extractName_first_lines_witness :
  exists line n,
    In line (firstn 5 (split newline resume_name_second))
    /\ utf16 "Иван Иванов" = firstn n (trim line).
Proof.
  apply extractName_first_lines. vm_compute. reflexivity.
Defined.

(** ** The frequency keywords of a vacancy *)

Lemma str_eqb_refl (a : jsstring) : str_eqb a a = true.
Proof. now apply str_eqb_eq. Qed.

Lemma str_eqb_neq (a b : jsstring) : str_eqb a b = false <-> a <> b.
Proof.
  split.
  - intros H ->. rewrite str_eqb_refl in H. discriminate.
  - intro H. destruct (str_eqb a b) eqn:E; [|reflexivity].
    apply str_eqb_eq in E. contradiction.
Qed.

Lemma str_eqb_sym (a b : jsstring) : str_eqb a b = str_eqb b a.
Proof.
  destruct (str_eqb b a) eqn:E.
  - apply str_eqb_eq in E. subst. apply str_eqb_refl.
  - apply str_eqb_neq. apply str_eqb_neq in E. congruence.
Qed.

Lemma occurrences_cons (w x : jsstring) (l : list jsstring) :
  occurrences w (x :: l)
  = (if str_eqb w x then 1 else 0) + occurrences w l.
Proof. unfold occurrences. simpl. destruct (str_eqb w x); reflexivity. Qed.

Lemma occurrences_In (w : jsstring) (l : list jsstring) :
  0 < occurrences w l <-> In w l.
Proof.
  induction l as [|x l IH]; [unfold occurrences; simpl; split; [lia|tauto]|].
  rewrite occurrences_cons. cbn [In].
  destruct (str_eqb w x) eqn:E.
  - apply str_eqb_eq in E. subst. split; [now left | lia].
  - apply str_eqb_neq in E. rewrite <- IH. split; [intro; right; lia|].
    intros [H|H]; [congruence | lia].
Qed.

(** Counting one more word raises its count by one and no other. *)
Lemma countOf_bump (acc : list (jsstring * nat)) (x w : jsstring) :
  countOf (bump acc x) w
  = countOf acc w + (if str_eqb x w then 1 else 0).
Proof.
  induction acc as [|[k n] acc IH]; cbn [bump countOf].
  - destruct (str_eqb x w); reflexivity.
  - destruct (str_eqb k x) eqn:Ekx; cbn [countOf].
    + apply str_eqb_eq in Ekx. subst k.
      destruct (str_eqb x w); lia.
    + destruct (str_eqb k w) eqn:Ekw; [|exact IH].
      apply str_eqb_eq in Ekw. subst k.
      rewrite (str_eqb_sym x w), Ekx. lia.
Qed.

Lemma bump_keys (acc : list (jsstring * nat)) (x : jsstring) :
  map fst (bump acc x)
  = if arr_includes (map fst acc) x then map fst acc
    else map fst acc ++ [x].
Proof.
  induction acc as [|[k n] acc IH]; [reflexivity|].
  cbn [bump map fst arr_includes existsb].
  unfold arr_includes in IH.
  destruct (str_eqb k x) eqn:Ekx.
  - apply str_eqb_eq in Ekx. subst k. now rewrite str_eqb_refl.
  - rewrite (str_eqb_sym x k), Ekx. cbn [map fst orb]. rewrite IH.
    destruct (existsb (str_eqb x) (map fst acc)); reflexivity.
Qed.

Lemma arr_includes_In (l : list jsstring) (x : jsstring) :
  arr_includes l x = true <-> In x l.
Proof.
  unfold arr_includes. rewrite existsb_exists. split.
  - intros (y & Hy & E). apply str_eqb_eq in E. now subst.
  - intro H. exists x. split; [exact H | apply str_eqb_refl].
Qed.

Lemma bump_keys_NoDup (acc : list (jsstring * nat)) (x : jsstring) :
  NoDup (map fst acc) -> NoDup (map fst (bump acc x)).
Proof.
  intro H. rewrite bump_keys.
  destruct (arr_includes (map fst acc) x) eqn:E; [exact H|].
  apply NoDup_app; [exact H | repeat constructor; simpl; tauto |].
  intros y Hy [<-|[]].
  apply arr_includes_In in Hy. congruence.
Qed.

Lemma bump_keys_In (acc : list (jsstring * nat)) (x w : jsstring) :
  In w (map fst (bump acc x)) <-> In w (map fst acc) \/ w = x.
Proof.
  rewrite bump_keys.
  destruct (arr_includes (map fst acc) x) eqn:E.
  - apply arr_includes_In in E. split; [tauto|].
    intros [H| ->]; assumption.
  - rewrite in_app_iff. simpl. intuition congruence.
Qed.

Section FrequencyTable.

Variable words : list jsstring.

Lemma fold_bump_count (w : jsstring) :
  forall l acc,
    countOf (fold_left bump l acc) w = countOf acc w + occurrences w l.
Proof.
  induction l as [|x l IH]; intro acc; cbn [fold_left].
  - unfold occurrences. simpl. lia.
  - rewrite IH, countOf_bump, occurrences_cons.
    rewrite (str_eqb_sym w x). lia.
Qed.

Lemma fold_bump_NoDup :
  forall l acc, NoDup (map fst acc) -> NoDup (map fst (fold_left bump l acc)).
Proof.
  induction l as [|x l IH]; intros acc H; cbn [fold_left]; [exact H|].
  apply IH, bump_keys_NoDup, H.
Qed.

Lemma fold_bump_keys (w : jsstring) :
  forall l acc,
    In w (map fst (fold_left bump l acc)) <-> In w (map fst acc) \/ In w l.
Proof.
  induction l as [|x l IH]; intro acc; cbn [fold_left].
  - simpl. tauto.
  - rewrite IH, bump_keys_In. simpl. intuition congruence.
Qed.

Lemma countOf_entry (acc : list (jsstring * nat)) (w : jsstring) (n : nat) :
  NoDup (map fst acc) -> In (w, n) acc -> countOf acc w = n.
Proof.
  induction acc as [|[k m] acc IH]; intros Hnd Hin; [destruct Hin|].
  cbn [map fst] in Hnd. inversion Hnd as [|? ? Hk Hnd']; subst.
  cbn [countOf]. destruct Hin as [[= -> ->]|Hin].
  - now rewrite str_eqb_refl.
  - destruct (str_eqb k w) eqn:E; [|now apply IH].
    apply str_eqb_eq in E. subst k. exfalso. apply Hk.
    apply in_map_iff. exists (w, n). auto.
Qed.

Let wordFreq := fold_left bump words [].

(** The table holds each word of the text once, with its number of
    occurrences. *)
Lemma wordFreq_entries (w : jsstring) (n : nat) :
  In (w, n) wordFreq <-> n = occurrences w words /\ In w words.
Proof.
  assert (Hnd : NoDup (map fst wordFreq))
    by (apply fold_bump_NoDup; constructor).
  split.
  - intro Hin. split.
    + rewrite <- (countOf_entry wordFreq w n Hnd Hin).
      unfold wordFreq. now rewrite fold_bump_count.
    + assert (Hk : In w (map fst wordFreq))
        by (apply in_map_iff; exists (w, n); auto).
      apply fold_bump_keys in Hk as [[]|Hk]. exact Hk.
  - intros [-> Hw].
    assert (Hk : In w (map fst wordFreq))
      by (apply fold_bump_keys; now right).
    apply in_map_iff in Hk as ([w' m] & Hfst & Hin). cbn [fst] in Hfst.
    subst w'.
    rewrite <- (countOf_entry wordFreq w m Hnd Hin) in Hin.
    unfold wordFreq in Hin at 1. rewrite fold_bump_count in Hin.
    exact Hin.
Qed.

Lemma wordFreq_keys_NoDup : NoDup (map fst wordFreq).
Proof. apply fold_bump_NoDup. constructor. Qed.

End FrequencyTable.

(** The comparator sort keeps the entries and orders them by descending
    frequency. *)
Lemma insert_desc_perm (x : jsstring * nat) (l : list (jsstring * nat)) :
  Permutation (insert_desc x l) (x :: l).
Proof.
  induction l as [|y l IH]; cbn [insert_desc]; [reflexivity|].
  destruct (Nat.leb (snd y) (snd x)); [reflexivity|].
  rewrite IH. apply perm_swap.
Qed.

Lemma sort_desc_perm (l : list (jsstring * nat)) :
  Permutation (sort_desc l) l.
Proof.
  induction l as [|x l IH]; [reflexivity|].
  unfold sort_desc in *. cbn [fold_right].
  rewrite insert_desc_perm. now constructor.
Qed.

Lemma insert_desc_sorted (x : jsstring * nat) (l : list (jsstring * nat)) :
  StronglySorted byFrequency l -> StronglySorted byFrequency (insert_desc x l).
Proof.
  induction l as [|y l IH]; intro H; cbn [insert_desc].
  - repeat constructor.
  - apply StronglySorted_inv in H as [Hl Hy].
    destruct (Nat.leb (snd y) (snd x)) eqn:E.
    + apply Nat.leb_le in E. constructor.
      * constructor; assumption.
      * constructor; [exact E|].
        rewrite Forall_forall in *. intros z Hz.
        specialize (Hy z Hz). unfold byFrequency in *. lia.
    + apply Nat.leb_gt in E. constructor; [now apply IH|].
      rewrite Forall_forall in *. intros z Hz.
      apply (Permutation_in _ (insert_desc_perm x l)) in Hz.
      destruct Hz as [<-|Hz]; [unfold byFrequency; lia | now apply Hy].
Qed.

Lemma sort_desc_sorted (l : list (jsstring * nat)) :
  StronglySorted byFrequency (sort_desc l).
Proof.
  induction l as [|x l IH]; [constructor|].
  unfold sort_desc in *. cbn [fold_right]. now apply insert_desc_sorted.
Qed.

Lemma StronglySorted_firstn {A} (R : A -> A -> Prop) (n : nat) :
  forall l, StronglySorted R l -> StronglySorted R (firstn n l).
Proof.
  induction n as [|n IH]; intros [|x l] H; cbn [firstn]; try constructor.
  - apply IH. now apply StronglySorted_inv in H.
  - apply StronglySorted_inv in H as [_ H].
    rewrite Forall_forall in *. intros y Hy. apply H.
    rewrite <- (firstn_skipn n l). apply in_or_app. now left.
Qed.

Lemma NoDup_firstn_prefix {A} (n : nat) (l : list A) :
  NoDup l -> NoDup (firstn n l).
Proof.
  intro H. rewrite <- (firstn_skipn n l) in H.
  now apply NoDup_app_remove_r in H.
Qed.

Lemma In_firstn {A} (n : nat) (l : list A) (x : A) :
  In x (firstn n l) -> In x l.
Proof.
  intro H. rewrite <- (firstn_skipn n l). apply in_or_app. now left.
Qed.

Lemma keys_filter_NoDup (keep : jsstring * nat -> bool)
    (table : list (jsstring * nat)) :
  NoDup (map fst table) -> NoDup (map fst (filter keep table)).
Proof.
  induction table as [|e table IH]; intro H; simpl; [constructor|].
  simpl in H. inversion H as [|? ? He Ht]; subst.
  destruct (keep e); [|now apply IH].
  simpl. constructor; [|now apply IH].
  intro Hin. apply He. apply in_map_iff in Hin as (y & Hy & Hin).
  apply filter_In in Hin as [Hin _]. apply in_map_iff. eauto.
Qed.

Lemma StronglySorted_keys (words : list jsstring)
    (l : list (jsstring * nat)) :
  (forall e, In e l -> snd e = occurrences (fst e) words) ->
  StronglySorted byFrequency l ->
  StronglySorted
    (fun a b => occurrences b words <= occurrences a words) (map fst l).
Proof.
  induction l as [|x l IH]; intros Hocc H; simpl; [constructor|].
  apply StronglySorted_inv in H as [Hl Hx]. constructor.
  - apply IH; [|exact Hl]. intros e He. apply Hocc. now right.
  - rewrite Forall_forall in *. intros k Hk.
    apply in_map_iff in Hk as (e & <- & He).
    specialize (Hx e He). unfold byFrequency in Hx.
    rewrite <- (Hocc e) by now right.
    rewrite <- (Hocc x) by now left. exact Hx.
Qed.

(** X16.  The frequency keywords of a vacancy: at most 20 words, pairwise
    distinct, each occurring at least twice among the candidate words of the
    lower-cased text, listed by non-increasing number of occurrences; a
    repeated word is left out only when 20 keywords were taken. *)
Theorem vacancy_keywords_spec :
  forall (toLowerCase : jsstring -> jsstring) (vacancyText : jsstring),
    let kws := keywords (extractVacancyRequirements toLowerCase vacancyText) in
    let words := candidateWords toLowerCase vacancyText in
    length kws <= 20
    /\ NoDup kws
    /\ (forall w, In w kws -> 2 <= occurrences w words)
    /\ StronglySorted
         (fun a b => occurrences b words <= occurrences a words) kws
    /\ (forall w, 2 <= occurrences w words ->
          In w kws \/ length kws = 20).
Proof.
  intros toLowerCase vacancyText kws words. subst kws.
  unfold extractVacancyRequirements. cbn [keywords].
  fold (candidateWords toLowerCase vacancyText). fold words.
  set (wordFreq := fold_left bump words []).
  set (repeated := filter (fun e => Nat.ltb 1 (snd e)) wordFreq).
  set (sorted := sort_desc repeated).
  assert (Hsorted : forall e, In e sorted <->
                      In e wordFreq /\ 1 < snd e).
  { intro e. unfold sorted. split.
    - intro H. apply (Permutation_in _ (sort_desc_perm repeated)) in H.
      apply filter_In in H as [H1 H2]. apply Nat.ltb_lt in H2. auto.
    - intros [H1 H2].
      apply (Permutation_in _ (Permutation_sym (sort_desc_perm repeated))).
      apply filter_In. split; [exact H1 | now apply Nat.ltb_lt]. }
  assert (Hocc : forall e, In e (firstn 20 sorted) ->
                   snd e = occurrences (fst e) words /\ 1 < snd e).
  { intros [w n] He. apply In_firstn, Hsorted in He as [He Hn].
    apply wordFreq_entries in He as [-> _]. auto. }
  split; [|split; [|split; [|split]]].
  - rewrite length_map. apply firstn_le_length.
  - rewrite <- firstn_map. apply NoDup_firstn_prefix.
    apply (Permutation_NoDup
             (Permutation_sym
                (Permutation_map fst (sort_desc_perm repeated)))).
    apply keys_filter_NoDup, wordFreq_keys_NoDup.
  - intros w Hw. apply in_map_iff in Hw as ([w' n] & <- & He).
    apply Hocc in He as [He Hn]. cbn [fst snd] in *. lia.
  - apply StronglySorted_keys.
    + intros e He. now apply Hocc.
    + apply StronglySorted_firstn, sort_desc_sorted.
  - intros w Hw.
    assert (Hin : In (w, occurrences w words) sorted).
    { apply Hsorted. split; [|cbn [snd]; lia].
      apply wordFreq_entries. split; [reflexivity|].
      apply occurrences_In. lia. }
    destruct (Nat.le_gt_cases (length sorted) 20) as [Hle|Hgt].
    + left. rewrite firstn_all2 by exact Hle.
      apply in_map_iff. exists (w, occurrences w words). auto.
    + right. rewrite length_map, length_firstn. lia.
Qed.

Lemma vacancy_keywords_spec_witness :
  2 <= occurrences (utf16 "опыт")
         (candidateWords toLowerCaseRu
            (utf16 "Опыт работы, опыт команды, работы много")).
Proof.
  apply (vacancy_keywords_spec toLowerCaseRu
           (utf16 "Опыт работы, опыт команды, работы много")).
  vm_compute. left. reflexivity.
Defined.

(** ** The line automaton of the block extraction *)

Lemma existsb_false_In {A} (f : A -> bool) (l : list A) (x : A) :
  existsb f l = false -> In x l -> f x = false.
Proof.
  intros H Hin. destruct (f x) eqn:E; [|reflexivity].
  assert (existsb f l = true) by (apply existsb_exists; eauto). congruence.
Qed.

Lemma keyword_own_or_other (t : sectionType) (keyword : jsstring) :
  In keyword (flat_map standardSections sectionTypes) ->
  In keyword (standardSections t) \/ In keyword (otherKeywords t).
Proof.
  intro H. destruct (arr_includes (standardSections t) keyword) eqn:E.
  - left. now apply arr_includes_In.
  - right. unfold otherKeywords. apply filter_In. now rewrite E.
Qed.

Section LineAutomaton.

Variable toLowerCase : jsstring -> jsstring.
Variable t : sectionType.

Lemma sectionLoop_collects (lines : list jsstring) :
  forall inSection collected,
    exists extra,
      sectionLoop toLowerCase t lines inSection collected
      = collected ++ extra
      /\ Forall (fun line =>
                   In line lines
                   /\ truthy (trim line) = true
                   /\ lineMentions toLowerCase
                        (flat_map standardSections sectionTypes) line
                      = false) extra
      /\ (inSection = false ->
          (forall line, In line lines ->
             lineMentions toLowerCase (standardSections t) line = false) ->
          extra = []).
Proof.
  induction lines as [|line rest IH]; intros inSection collected.
  - exists []. cbn [sectionLoop]. rewrite app_nil_r. auto.
  - cbn [sectionLoop].
    fold (lineMentions toLowerCase (standardSections t) line).
    fold (lineMentions toLowerCase (otherKeywords t) line).
    assert (Hweaken :
      forall extra,
        Forall (fun l => In l rest /\ truthy (trim l) = true
                         /\ lineMentions toLowerCase
                              (flat_map standardSections sectionTypes) l
                            = false) extra ->
        Forall (fun l => In l (line :: rest) /\ truthy (trim l) = true
                         /\ lineMentions toLowerCase
                              (flat_map standardSections sectionTypes) l
                            = false) extra).
    { intros extra H. eapply Forall_impl; [|exact H].
      intros l (H1 & H2 & H3). repeat split; auto. now right. }
    destruct (lineMentions toLowerCase (standardSections t) line) eqn:Eown.
    + destruct (IH true collected) as (extra & Heq & Hall & _).
      exists extra. split; [exact Heq|]. split; [now apply Hweaken|].
      intros _ Hnone. specialize (Hnone line (or_introl eq_refl)).
      congruence.
    + destruct inSection; cbn [andb].
      * destruct (lineMentions toLowerCase (otherKeywords t) line) eqn:Eoth.
        { exists []. rewrite app_nil_r. split; [reflexivity|].
          split; [constructor | discriminate]. }
        destruct (truthy (trim line)) eqn:Etr.
        { destruct (IH true (collected ++ [line])) as (extra & Heq & Hall & _).
          exists (line :: extra). rewrite Heq, <- app_assoc.
          split; [reflexivity|]. split; [|discriminate].
          constructor; [|now apply Hweaken].
          split; [now left|]. split; [exact Etr|].
          apply existsb_none. intros keyword Hk.
          apply (keyword_own_or_other t) in Hk as [Hk|Hk].
          - exact (existsb_false_In _ _ _ Eown Hk).
          - exact (existsb_false_In _ _ _ Eoth Hk). }
        destruct (IH true collected) as (extra & Heq & Hall & _).
        exists extra. split; [exact Heq|].
        split; [now apply Hweaken | discriminate].
      * destruct (IH false collected) as (extra & Heq & Hall & Hnone).
        exists extra. split; [exact Heq|]. split; [now apply Hweaken|].
        intros _ H. apply Hnone; [reflexivity|].
        intros l Hl. apply H. now right.
Qed.

End LineAutomaton.

(** X17.  Run on a text with its line breaks, the experience and education
    extractors return some of its lines joined by newlines: each is a
    non-blank line of the text that mentions no section keyword of any
    category. *)
Theorem block_extraction_collects_plain_lines :
  forall (toLowerCase : jsstring -> jsstring) (text : jsstring),
    (exists collected,
        extractExperienceSection toLowerCase text = join [newline] collected
        /\ Forall (plainLine toLowerCase text) collected)
    /\ (exists collected,
           extractEducationSection toLowerCase text = join [newline] collected
           /\ Forall (plainLine toLowerCase text) collected).
Proof.
  intros toLowerCase text.
  split;
    [destruct (sectionLoop_collects toLowerCase experience
                 (split newline text) false []) as (extra & Heq & Hall & _)
    |destruct (sectionLoop_collects toLowerCase education
                 (split newline text) false []) as (extra & Heq & Hall & _)];
    exists extra; (split; [|exact Hall]);
    [unfold extractExperienceSection|unfold extractEducationSection];
    now rewrite Heq.
Qed.

(** X18.  When no line of the text mentions a start keyword of the
    category, the extractor returns the empty string. *)
Theorem block_extraction_needs_marker :
  forall (toLowerCase : jsstring -> jsstring) (text : jsstring),
    ((forall line, In line (split newline text) ->
        lineMentions toLowerCase (standardSections experience) line = false) ->
     extractExperienceSection toLowerCase text = [])
    /\ ((forall line, In line (split newline text) ->
           lineMentions toLowerCase (standardSections education) line = false) ->
        extractEducationSection toLowerCase text = []).
Proof.
  intros toLowerCase text.
  split; intro H;
    [destruct (sectionLoop_collects toLowerCase experience
                 (split newline text) false []) as (extra & Heq & _ & Hnone);
     unfold extractExperienceSection
    |destruct (sectionLoop_collects toLowerCase education
                 (split newline text) false []) as (extra & Heq & _ & Hnone);
     unfold extractEducationSection];
    rewrite Heq, (Hnone eq_refl H); reflexivity.
Qed.

Lemma block_extraction_needs_marker_witness :
  extractEducationSection toLowerCaseRu
    (lines ["Опыт работы"; "Backend developer"]) = [].
Proof.
  apply (proj2 (block_extraction_needs_marker toLowerCaseRu
                  (lines ["Опыт работы"; "Backend developer"]))).
  apply none_by_check. vm_compute. reflexivity.
Defined.

(** ** Empty texts *)

Lemma trimStart_nil (s : jsstring) :
  trimStart s = [] <-> forallb isWhiteSpace s = true.
Proof.
  induction s as [|c s IH]; [simpl; tauto|].
  cbn [trimStart forallb]. destruct (isWhiteSpace c); cbn [andb].
  - exact IH.
  - split; discriminate.
Qed.

Lemma forallb_rev {A} (f : A -> bool) (l : list A) :
  forallb f (rev l) = forallb f l.
Proof.
  destruct (forallb f l) eqn:E.
  - rewrite forallb_forall in *. intros x Hx. apply E. now apply in_rev.
  - destruct (forallb f (rev l)) eqn:E'; [|reflexivity].
    rewrite forallb_forall in E'.
    assert (forallb f l = true); [|congruence].
    apply forallb_forall. intros x Hx. apply E'. now apply in_rev in Hx.
Qed.

(** [trim] leaves nothing exactly of the strings made of white space. *)
Lemma trim_nil (s : jsstring) :
  trim s = [] <-> forallb isWhiteSpace s = true.
Proof.
  unfold trim, trimEnd. split.
  - intro H. apply (f_equal (@rev _)) in H. rewrite rev_involutive in H.
    cbn [rev] in H. apply trimStart_nil in H. rewrite forallb_rev in H.
    destruct (trimStart_split s) as (pre & Hs & Hpre & _).
    rewrite Hs, forallb_app, Hpre, H. reflexivity.
  - intro H. apply trimStart_nil in H. rewrite H. reflexivity.
Qed.

Lemma collapseSpaces_blank (s : jsstring) :
  forall p,
    forallb isWhiteSpace (collapseSpaces p s) = forallb isWhiteSpace s.
Proof.
  induction s as [|c s IH]; intro p; [reflexivity|].
  cbn [collapseSpaces forallb]. destruct (isWhiteSpace c) eqn:Hc.
  - destruct p; cbn [forallb andb]; [apply IH|].
    change (isWhiteSpace 32%N) with true. cbn [andb]. apply IH.
  - cbn [forallb]. now rewrite Hc.
Qed.

Lemma normalizeText_nil (text : jsstring) :
  normalizeText text = [] <-> trim text = [].
Proof.
  rewrite normalizeText_trim_collapse, !trim_nil.
  now rewrite collapseSpaces_blank.
Qed.

(** X19.  The normalized text is empty exactly when the text consists of
    white space only, that is, when [text.trim()] is empty. *)
Theorem normalizeText_empty_iff_blank :
  forall text : jsstring,
    (normalizeText text = [] <-> forallb isWhiteSpace text = true)
    /\ (normalizeText text = [] <-> trim text = []).
Proof.
  intro text. split; [|apply normalizeText_nil].
  rewrite normalizeText_nil. apply trim_nil.
Qed.

(** ** The request handler *)

Lemma truthy_nil (s : jsstring) : truthy s = false <-> s = [].
Proof. destruct s; simpl; split; congruence. Qed.

Section RouteProperties.

Variable toLowerCase : jsstring -> jsstring.

(** The handler analyses exactly the bodies whose two fields are strings
    with something else than white space in them. *)
Lemma POST_analyses (request_json : option json) (resp : response)
    (log : list logEntry) :
  POST toLowerCase request_json = (resp, log) ->
  status resp = 200 ->
  exists body r v,
    request_json = Some body
    /\ getProperty body (utf16 "resumeText") = Value (Some (JString r))
    /\ getProperty body (utf16 "vacancyText") = Value (Some (JString v))
    /\ trim r <> [] /\ trim v <> []
    /\ resp = mkResponse 200
                (ResultBody (analyzeResume toLowerCase (trim r) (trim v))).
Proof.
  unfold POST, serverError, badRequest.
  destruct request_json as [body|]; [|intros [= <- <-]; discriminate].
  destruct (getProperty body (utf16 "resumeText")) as [rf|] eqn:Egr;
    [|intros [= <- <-]; discriminate].
  destruct (getProperty body (utf16 "vacancyText")) as [vf|] eqn:Egv;
    [|intros [= <- <-]; discriminate].
  destruct (negb (json_truthy rf) || negb (json_truthy vf));
    [intros [= <- <-]; discriminate|].
  destruct rf as [[| | |r| |]|]; cbn [call_trim];
    try (intros [= <- <-]; discriminate).
  destruct vf as [[| | |v| |]|]; cbn [call_trim];
    try (intros [= <- <-]; discriminate).
  rewrite !trim_idempotent.
  destruct (truthy (trim r)) eqn:Er; cbn [negb];
    [|intros [= <- <-]; discriminate].
  destruct (truthy (trim v)) eqn:Ev; cbn [negb];
    [|intros [= <- <-]; discriminate].
  intros [= <- <-] _. exists body, r, v.
  split; [reflexivity|]. split; [exact Egr|]. split; [exact Egv|].
  split; [intro H; rewrite H in Er; discriminate|].
  split; [intro H; rewrite H in Ev; discriminate|reflexivity].
Qed.

End RouteProperties.

(** X20.  The handler answers 200, 400 or 500.  It answers 200 only when
    both fields of the body are strings that hold more than white space,
    and the payload is then the analysis of the two trimmed texts. *)
Theorem POST_success :
  forall (toLowerCase : jsstring -> jsstring) (request_json : option json),
    let resp := fst (POST toLowerCase request_json) in
    (status resp = 200 \/ status resp = 400 \/ status resp = 500)
    /\ (status resp = 200 ->
        exists body r v,
          request_json = Some body
          /\ getProperty body (utf16 "resumeText") = Value (Some (JString r))
          /\ getProperty body (utf16 "vacancyText")
             = Value (Some (JString v))
          /\ trim r <> [] /\ trim v <> []
          /\ resp = mkResponse 200
                      (ResultBody
                         (analyzeResume toLowerCase (trim r) (trim v)))).
Proof.
  intros toLowerCase request_json resp. subst resp. split.
  - unfold POST, serverError, badRequest.
    destruct request_json as [body|]; [|auto].
    destruct (getProperty body _) as [rf|]; [|auto].
    destruct (getProperty body _) as [vf|]; [|auto].
    destruct (_ || _); [auto|].
    destruct (call_trim rf); [|auto]. destruct (call_trim vf); [|auto].
    destruct (negb _); [auto|]. destruct (negb _); auto.
  - intro H.
    destruct (POST toLowerCase request_json) as [resp log] eqn:E.
    eapply POST_analyses; eauto.
Qed.

Lemma POST_success_witness :
  exists body r v,
    Some (JObject [(utf16 "resumeText", JString resume_ivan);
                   (utf16 "vacancyText", JString vacancy_python)])
    = Some body
    /\ getProperty body (utf16 "resumeText") = Value (Some (JString r))
    /\ getProperty body (utf16 "vacancyText") = Value (Some (JString v))
    /\ trim r <> [] /\ trim v <> []
    /\ fst (POST toLowerCaseRu
              (Some (JObject [(utf16 "resumeText", JString resume_ivan);
                              (utf16 "vacancyText", JString vacancy_python)])))
       = mkResponse 200
           (ResultBody (analyzeResume toLowerCaseRu (trim r) (trim v))).
Proof.
  apply (proj2 (POST_success toLowerCaseRu
                  (Some (JObject
                           [(utf16 "resumeText", JString resume_ivan);
                            (utf16 "vacancyText", JString vacancy_python)])))).
  vm_compute. reflexivity.
Defined.

(** X21.  A résumé field that is a non-empty string of white space only is
    answered with status 400 and the empty-résumé message, whatever the
    vacancy text; nothing is logged and nothing analysed. *)
Theorem POST_blank_resume :
  forall (toLowerCase : jsstring -> jsstring)
         (fields : list (jsstring * json)) (r v : jsstring),
    lookupField fields (utf16 "resumeText") = Some (JString r) ->
    lookupField fields (utf16 "vacancyText") = Some (JString v) ->
    r <> [] -> v <> [] ->
    forallb isWhiteSpace r = true ->
    POST toLowerCase (Some (JObject fields))
    = (mkResponse 400
         (ErrorBody (utf16 "Резюме пустое или не содержит текста")), []).
Proof.
  intros toLowerCase fields r v Hr Hv Hrn Hvn Hblank.
  unfold POST. cbn [getProperty]. rewrite Hr, Hv.
  cbn [json_truthy call_trim].
  destruct r as [|c r]; [congruence|]. destruct v as [|d v]; [congruence|].
  cbn [truthy negb orb].
  rewrite trim_idempotent.
  apply trim_nil in Hblank. rewrite Hblank. reflexivity.
Qed.

Lemma POST_blank_resume_witness :
  POST toLowerCaseRu
    (Some (JObject [(utf16 "resumeText", JString (utf16 "   "));
                    (utf16 "vacancyText", JString vacancy_python)]))
  = (mkResponse 400
       (ErrorBody (utf16 "Резюме пустое или не содержит текста")), []).
Proof.
  apply (POST_blank_resume toLowerCaseRu _ (utf16 "   ") vacancy_python);
    try (vm_compute; reflexivity); vm_compute; discriminate.
Defined.

(** X22.  A body that is [null], or a field that is present and truthy but
    not a string, ends in the handler's catch block: status 500 and one
    error log entry. *)
Theorem POST_type_errors :
  forall (toLowerCase : jsstring -> jsstring),
    POST toLowerCase None = serverError
    /\ POST toLowerCase (Some JNull) = serverError
    /\ (forall fields rf vf,
          lookupField fields (utf16 "resumeText") = Some rf ->
          lookupField fields (utf16 "vacancyText") = Some vf ->
          json_truthy (Some rf) = true -> json_truthy (Some vf) = true ->
          (forall s, rf <> JString s) \/ (forall s, vf <> JString s) ->
          POST toLowerCase (Some (JObject fields)) = serverError).
Proof.
  intro toLowerCase. split; [reflexivity|]. split; [reflexivity|].
  intros fields rf vf Hr Hv Htr Htv Hns.
  unfold POST. cbn [getProperty]. rewrite Hr, Hv, Htr, Htv. cbn [negb orb].
  destruct rf as [| | |r| |]; cbn [call_trim]; try reflexivity.
  destruct vf as [| | |v| |]; cbn [call_trim]; try reflexivity.
  destruct Hns as [H|H]; [destruct (H r) | destruct (H v)]; reflexivity.
Qed.

Lemma POST_type_errors_witness :
  POST toLowerCaseRu
    (Some (JObject [(utf16 "resumeText", JBool true);
                    (utf16 "vacancyText", JString vacancy_python)]))
  = serverError.
Proof.
  apply (proj2 (proj2 (POST_type_errors toLowerCaseRu))
           _ (JBool true) (JString vacancy_python));
    try (vm_compute; reflexivity).
  left. discriminate.
Defined.

(** X23.  Whenever the handler answers 200, the analysed résumé has a
    non-empty raw text, and the result obeys the limits of the analyzer:
    overall score between 0 and 81, no position, empty experience text. *)
Theorem POST_result_invariants :
  forall (toLowerCase : jsstring -> jsstring) (request_json : option json)
         (result : ATSAnalysisResult),
    fst (POST toLowerCase request_json) = mkResponse 200 (ResultBody result) ->
    rawText (parsedResume result) <> []
    /\ (0 <= score result <= 81)%Z
    /\ position (parsedResume result) = None
    /\ experienceText (parsedResume result) = [].
Proof.
  intros toLowerCase request_json result H.
  destruct (POST toLowerCase request_json) as [resp log] eqn:E.
  cbn [fst] in H. subst resp.
  apply POST_analyses in E as (body & r & v & _ & _ & _ & Hr & _ & Hresp);
    [|reflexivity].
  injection Hresp as ->.
  rewrite result_parsedResume.
  split; [|split; [|split]].
  - cbn [parseResume rawText]. intro Hn.
    change (normalizeText (trim r) = []) in Hn.
    rewrite normalizeText_nil, trim_idempotent in Hn.
    exact (Hr Hn).
  - rewrite result_score, result_breakdown, analyzeExperience_parsed.
    pose proof (analyzeKeywords_bounds toLowerCase
                  (parseResume toLowerCase (trim r)) v) as Hk.
    split.
    + apply totalScore_bounds;
        [apply analyzeKeywords_bounds | apply analyzeStructure_values
        | apply analyzeContacts_values].
    + apply totalScore_cap;
        [apply analyzeKeywords_bounds | apply analyzeStructure_one_line
        | apply analyzeContacts_values].
  - apply extractPosition_undefined.
  - apply parseResume_experienceText.
Qed.

Lemma POST_result_invariants_witness :
  rawText (parsedResume
             (analyzeResume toLowerCaseRu (trim resume_ivan)
                (trim vacancy_python))) <> [].
Proof.
  apply (POST_result_invariants toLowerCaseRu
           (Some (JObject [(utf16 "resumeText", JString resume_ivan);
                           (utf16 "vacancyText", JString vacancy_python)]))).
  vm_compute. reflexivity.
Defined.

(** ** When each recommendation is given *)

Section RuleTriggers.

Variables (bd : Breakdown) (resume : ParsedResume).

Lemma rule_keywords_eq (mk : list jsstring) (recs : list Recommendation) :
  rule_keywords bd mk recs
  = recs ++ (if (b_keywords bd <? 70)%Z && Nat.ltb 0 (length mk)
             then [rec_keywords mk] else []).
Proof.
  unfold rule_keywords.
  destruct (b_keywords bd <? 70)%Z, (Nat.ltb 0 (length mk)); cbn [andb];
    now rewrite ?app_nil_r.
Qed.

Lemma rule_structure_eq (recs : list Recommendation) :
  rule_structure bd resume recs
  = recs ++ (if (b_structure bd <? 70)%Z
                && Nat.ltb 0 (length (missingSectionsOf resume))
             then [rec_sections (missingSectionsOf resume)] else []).
Proof.
  unfold rule_structure. fold (missingSectionsOf resume).
  destruct (b_structure bd <? 70)%Z,
    (Nat.ltb 0 (length (missingSectionsOf resume))); cbn [andb];
    now rewrite ?app_nil_r.
Qed.

Lemma rule_contacts_eq (recs : list Recommendation) :
  rule_contacts bd resume recs
  = recs ++ (if (b_contacts bd <? 80)%Z
                && Nat.ltb 0 (length (missingContactsOf resume))
             then [rec_contacts (missingContactsOf resume)] else []).
Proof.
  unfold rule_contacts. fold (missingContactsOf resume).
  destruct (b_contacts bd <? 80)%Z,
    (Nat.ltb 0 (length (missingContactsOf resume))); cbn [andb];
    now rewrite ?app_nil_r.
Qed.

End RuleTriggers.

Lemma In_optional {A} (c : bool) (x y : A) :
  In y (if c then [x] else []) <-> c = true /\ y = x.
Proof.
  destruct c; simpl; split; try tauto.
  - intros [<-|[]]. auto.
  - intros [_ ->]. now left.
  - intros [H _]. discriminate.
Qed.

(** The keyword score is 100 exactly when nothing is missing. *)
Lemma keywords_100_iff (toLowerCase : jsstring -> jsstring)
    (resumeText vacancyText : jsstring) :
  b_keywords (breakdown (analyzeResume toLowerCase resumeText vacancyText))
  = 100%Z
  <-> fullMissing toLowerCase resumeText vacancyText = [].
Proof.
  rewrite result_breakdown. cbn [b_keywords].
  rewrite analyzeKeywords_eq. cbv zeta. unfold fullMissing.
  pose proof (allRequirements_length toLowerCase vacancyText) as Hlen.
  set (resume := parseResume toLowerCase resumeText) in *.
  destruct (allRequirements _) as [|r reqs] eqn:E; cbn [fst]; [tauto|].
  set (all := r :: reqs) in *.
  pose proof (filter_split_length (occursIn toLowerCase resume) all) as Hs.
  assert (Hn : 1 <= length all <= 81).
  { unfold all in Hlen |- *. cbn [length] in Hlen |- *. lia. }
  destruct (keywordScore_steps (length all) Hn) as (Hstep & Hfull & _).
  split.
  - intro H100.
    destruct (Nat.eq_dec
                (length (filter (occursIn toLowerCase resume) all))
                (length all)) as [Heq|Hneq].
    + apply length_zero_iff_nil. lia.
    + exfalso.
      assert (Hlt : length (filter (occursIn toLowerCase resume) all)
                    < length all) by lia.
      exact (proj2 (Hstep _ Hlt) H100).
  - intro Hnil. rewrite Hnil in Hs. cbn [length] in Hs.
    rewrite Nat.add_0_r in Hs. rewrite Hs. exact Hfull.
Qed.

Lemma structure_trigger (toLowerCase : jsstring -> jsstring)
    (text : jsstring) :
  let resume := parseResume toLowerCase text in
  (analyzeStructure resume <? 70)%Z
  && Nat.ltb 0 (length (missingSectionsOf resume))
  = negb (sections_includes (sections resume) experience
          && sections_includes (sections resume) education
          && sections_includes (sections resume) skills).
Proof.
  cbv zeta. rewrite structureScore_eq.
  change (rawText (parseResume toLowerCase text)) with (normalizeText text).
  rewrite normalizeText_one_line.
  unfold missingSectionsOf, expectedSections. cbn [filter].
  destruct (sections_includes _ experience),
    (sections_includes _ education), (sections_includes _ skills),
    (sections_includes _ contacts);
    vm_compute; reflexivity.
Qed.

Lemma contacts_trigger (resume : ParsedResume) :
  (analyzeContacts resume <? 80)%Z
  && Nat.ltb 0 (length (missingContactsOf resume))
  = negb (truthy_opt (email resume) && truthy_opt (phone resume)).
Proof.
  unfold analyzeContacts, missingContactsOf.
  destruct (truthy_opt (email resume)), (truthy_opt (phone resume)),
    (truthy_opt (name resume)); vm_compute; reflexivity.
Qed.

Lemma keywords_trigger (toLowerCase : jsstring -> jsstring)
    (resumeText vacancyText : jsstring) :
  let result := analyzeResume toLowerCase resumeText vacancyText in
  (b_keywords (breakdown result) <? 70)%Z
  && Nat.ltb 0 (length (missingKeywords result))
  = (b_keywords (breakdown result) <? 70)%Z.
Proof.
  cbv zeta.
  destruct (b_keywords _ <? 70)%Z eqn:E; [|reflexivity]. cbn [andb].
  apply Z.ltb_lt in E. apply Nat.ltb_lt.
  rewrite missingKeywords_firstn.
  destruct (fullMissing toLowerCase resumeText vacancyText) eqn:Hm.
  - apply keywords_100_iff in Hm. lia.
  - simpl. lia.
Qed.

Lemma rec_sections_title (ms : list jsstring) :
  title (rec_sections ms) = title (rec_sections []).
Proof. cbn [title rec_sections]. reflexivity. Qed.

Lemma rec_contacts_title (mc : list jsstring) :
  title (rec_contacts mc) = title (rec_contacts []).
Proof. cbn [title rec_contacts]. reflexivity. Qed.

(** X24.  For every pair of inputs: the keyword recommendation is given
    exactly when the keyword score is below 70; the sections recommendation
    exactly when one of the sections experience, education, skills was not
    detected; the contacts recommendation exactly when the e-mail or the
    telephone is missing (a missing name alone does not trigger it). *)
Theorem recommendation_triggers :
  forall (toLowerCase : jsstring -> jsstring) (resumeText vacancyText : jsstring),
    let result := analyzeResume toLowerCase resumeText vacancyText in
    let resume := parsedResume result in
    (recommends (recommendations result) (title (rec_keywords [])) <->
     (b_keywords (breakdown result) < 70)%Z)
    /\ (recommends (recommendations result) (title (rec_sections [])) <->
        sections_includes (sections resume) experience
        && sections_includes (sections resume) education
        && sections_includes (sections resume) skills = false)
    /\ (recommends (recommendations result) (title (rec_contacts [])) <->
        truthy_opt (email resume) && truthy_opt (phone resume) = false).
Proof.
  intros toLowerCase resumeText vacancyText result resume.
  subst resume result.
  pose proof (keywords_trigger toLowerCase resumeText vacancyText) as Hk.
  pose proof (structure_trigger toLowerCase resumeText) as Hs.
  pose proof (contacts_trigger (parseResume toLowerCase resumeText)) as Hc.
  cbv zeta in Hk, Hs.
  rewrite result_recommendations, result_parsedResume.
  rewrite generateRecommendations_no_experience;
    [|rewrite result_breakdown; cbn [b_experience];
      rewrite analyzeExperience_parsed; lia
     |apply parseResume_experienceText].
  rewrite rule_contacts_eq, rule_structure_eq, rule_keywords_eq.
  cbn [app]. rewrite Hk.
  replace (b_structure
             (breakdown (analyzeResume toLowerCase resumeText vacancyText)))
    with (analyzeStructure (parseResume toLowerCase resumeText))
    by (now rewrite result_breakdown).
  replace (b_contacts
             (breakdown (analyzeResume toLowerCase resumeText vacancyText)))
    with (analyzeContacts (parseResume toLowerCase resumeText))
    by (now rewrite result_breakdown).
  rewrite Hs, Hc. clear Hk Hs Hc.
  set (mk := missingKeywords _).
  set (ms := missingSectionsOf _). set (mc := missingContactsOf _).
  set (ck := (b_keywords _ <? 70)%Z).
  set (cs := negb (_ && _ && _)). set (cc := negb (_ && _)).
  assert (Hin : forall rec,
            In rec ((((if ck then [rec_keywords mk] else [])
                      ++ (if cs then [rec_sections ms] else []))
                     ++ (if cc then [rec_contacts mc] else []))
                    ++ [rec_no_experience]) <->
            (ck = true /\ rec = rec_keywords mk)
            \/ (cs = true /\ rec = rec_sections ms)
            \/ (cc = true /\ rec = rec_contacts mc)
            \/ rec = rec_no_experience).
  { intro rec. rewrite !in_app_iff, !In_optional. cbn [In].
    split.
    - intros [[[H|H]|H]|[H|[]]]; auto.
    - intros [H|[H|[H|H]]]; auto. }
  unfold recommends. split; [|split].
  - split.
    + intros (rec & Hrec & Ht). apply Hin in Hrec
        as [[H ->]|[[H ->]|[[H ->]| ->]]];
        [apply Z.ltb_lt; exact H | exfalso; revert Ht; distinct_titles ..].
    + intro H. apply Z.ltb_lt in H. exists (rec_keywords mk).
      split; [|apply rec_keywords_title].
      apply Hin. left. split; [exact H | reflexivity].
  - split.
    + intros (rec & Hrec & Ht). apply Hin in Hrec
        as [[H ->]|[[H ->]|[[H ->]| ->]]];
        [exfalso; revert Ht; distinct_titles
        |apply negb_true_iff in H; exact H
        |exfalso; revert Ht; distinct_titles ..].
    + intro H. exists (rec_sections ms).
      split; [|apply rec_sections_title]. apply Hin. right. left.
      split; [|reflexivity]. apply negb_true_iff. exact H.
  - split.
    + intros (rec & Hrec & Ht). apply Hin in Hrec
        as [[H ->]|[[H ->]|[[H ->]| ->]]];
        [exfalso; revert Ht; distinct_titles ..
        |apply negb_true_iff in H; exact H
        |exfalso; revert Ht; distinct_titles].
    + intro H. exists (rec_contacts mc).
      split; [|apply rec_contacts_title]. apply Hin. right. right. left.
      split; [|reflexivity]. apply negb_true_iff. exact H.
Qed.

(** ** Instances *)

(** With every score at 100 and an experience text present nothing is
    recommended but the affirmation. *)
Lemma recommendations_shape_witness :
  generateRecommendations (mkBreakdown 100 100 100 100)
    (mkParsedResume None None None None [] (utf16 "опыт") [] [] [])
    (mkRequirements [] [] []) [] []
  = [rec_well_done].
Proof.
  apply (proj2 (recommendations_shape (mkBreakdown 100 100 100 100)
                  (mkParsedResume None None None None [] (utf16 "опыт")
                     [] [] [])
                  (mkRequirements [] [] []) [] [])).
  vm_compute. left. reflexivity.
Defined.

(** In the normalized form of "a", tab, newline, "b" the space is followed
    by a code unit that is not white space. *)
Lemma normalizeText_single_spaces_witness :
  isWhiteSpace (cu "b") = false.
Proof.
  apply (proj1 (proj2 (normalizeText_single_spaces
                         (utf16 "a" ++ [9%N; 10%N] ++ utf16 "b")))
           [cu "a"] 32%N (cu "b") []);
    vm_compute; reflexivity.
Defined.
